(** * CortexSOC detection engine (src/cortexsoc/detect.py)

    A shallow embedding of the four rule evaluators and of the aggregator
    [detect_all], with the module-level dictionaries [_seen_origins] and
    [_failed_logins] threaded as an explicit state, and the [TypeError] that
    Python's [datetime] comparison can raise kept as an explicit result. *)

From stdpp Require Import gmap strings list sorting.
From Stdlib Require Import Ascii ZArith Lia.

#[local] Set Warnings "-clear-no-such-hyp".

Local Open Scope string_scope.
Local Open Scope list_scope.
Local Open Scope Z_scope.

(** ** Data model *)

(** A log record: a Python dict read only through [r.get(key)], every key
    optional.  The [raw] payload is never read by the engine and is left out. *)
Record LogRecord := mkLog {
  r_type : option string;
  r_user : option string;
  r_origin : option string;
  r_ip : option string;
  r_timestamp : option string;
}.

Global Instance LogRecord_eq_dec : EqDecision LogRecord.
Proof. solve_decision. Defined.

(** An alert: the dict literal a rule appends.  Keys that a rule does not set
    are [None]; [a_record = None] stands for the Python value [None] stored
    under the key "record". *)
Record Alert := mkAlert {
  a_user : string;
  a_reason : string;
  a_severity : string;
  a_origin : option string;
  a_failed_count : option Z;
  a_hour : option Z;
  a_logins_in_window : option nat;
  a_window_seconds : option Z;
  a_record : option LogRecord;
}.

Global Instance Alert_eq_dec : EqDecision Alert.
Proof. solve_decision. Defined.

(** The exceptions that can leave a rule. *)
Inductive exn := TypeError.

Inductive result (A : Type) :=
  | Ok (a : A)
  | Raise (e : exn).
Arguments Ok {A} a.
Arguments Raise {A} e.

Definition bind {A B} (m : result A) (k : A → result B) : result B :=
  match m with
  | Ok a => k a
  | Raise e => Raise e
  end.

Notation "x ←! m ; k" := (bind m (λ x, k))
  (at level 20, m at level 100, k at level 200, right associativity,
   format "x  ←!  m ;  '/' k").

Definition is_Ok {A} (m : result A) : Prop :=
  match m with Ok _ => True | Raise _ => False end.

(** ** Detection state: the module-level defaultdicts

    [_user_login_times] is declared beside them but no function reads or
    writes it (rule 4 builds a local dict of its own), so it carries no
    state. *)

Record State := mkState {
  _seen_origins : gmap string (gset string);
  _failed_logins : gmap string Z;
}.

Definition fresh : State := mkState ∅ ∅.

(** [d[k]] on a [defaultdict]: a missing key is first bound to the default. *)
Definition dd_getitem {V} (dflt : V) (d : gmap string V) (k : string)
  : gmap string V * V :=
  match d !! k with
  | Some v => (d, v)
  | None => (<[k := dflt]> d, dflt)
  end.

(** What a read of the dictionaries observes for a user. *)
Definition seen (st : State) (u : string) : gset string :=
  default ∅ (_seen_origins st !! u).

Definition failed (st : State) (u : string) : Z :=
  default 0 (_failed_logins st !! u).

(** [r.get("type") != t] *)
Definition type_is (t : string) (r : LogRecord) : bool :=
  bool_decide (r_type r = Some t).

(** Python truthiness of [r.get(key)] for an optional string: [None] and the
    empty string are falsy. *)
Definition truthy (o : option string) : option string :=
  match o with
  | Some s => if decide (s = "") then None else Some s
  | None => None
  end.

(** ** Rule 1: login from a new origin *)

Definition new_origin_alert (u o : string) (r : LogRecord) : Alert :=
  {| a_user := u; a_reason := "new_origin"; a_severity := "medium";
     a_origin := Some o; a_failed_count := None; a_hour := None;
     a_logins_in_window := None; a_window_seconds := None;
     a_record := Some r |}.

(** One iteration of the [for r in logs] loop. *)
Definition new_origin_body (acc : State * list Alert) (r : LogRecord)
  : State * list Alert :=
  let '(st, alerts) := acc in
  if negb (type_is "login" r) then acc else
  match truthy (r_user r), truthy (r_origin r) with
  | Some user, Some origin =>
      let '(d, s) := dd_getitem ∅ (_seen_origins st) user in
      if decide (origin ∈ s) then (mkState d (_failed_logins st), alerts)
      else (mkState (<[user := s ∪ {[origin]}]> d) (_failed_logins st),
            alerts ++ [new_origin_alert user origin r])
  | _, _ => acc
  end.

Definition rule_login_from_new_origin (st : State) (logs : list LogRecord)
  : State * list Alert :=
  fold_left new_origin_body logs (st, []).

(** ** Rule 2: failed-login threshold *)

Definition failed_login_alert (u : string) (n : Z) (r : LogRecord) : Alert :=
  {| a_user := u; a_reason := "failed_login_threshold"; a_severity := "high";
     a_origin := None; a_failed_count := Some n; a_hour := None;
     a_logins_in_window := None; a_window_seconds := None;
     a_record := Some r |}.

Definition failed_login_body (threshold : Z) (acc : State * list Alert)
  (r : LogRecord) : State * list Alert :=
  let '(st, alerts) := acc in
  if negb (type_is "failed_login" r) then acc else
  match truthy (r_user r) with
  | Some user =>
      let '(d, c) := dd_getitem 0 (_failed_logins st) user in
      let d' := <[user := c + 1]> d in
      let st' := mkState (_seen_origins st) d' in
      if decide (c + 1 >= threshold)
      then (st', alerts ++ [failed_login_alert user (c + 1) r])
      else (st', alerts)
  | None => acc
  end.

Definition rule_failed_login_threshold (threshold : Z) (st : State)
  (logs : list LogRecord) : State * list Alert :=
  fold_left (failed_login_body threshold) logs (st, []).

Definition default_threshold : Z := 5.
Definition default_outside_hours : Z * Z := (22, 6).
Definition default_window_seconds : Z := 60.

(** ** Timestamps: what the engine observes of [datetime.datetime]

    The rules read three things of a parsed timestamp: its [hour] attribute,
    its order against another timestamp ([list.sort]) and the difference of
    two ([-] then [total_seconds()]).  A [datetime] is kept as exactly that:
    the hour field, the wall-clock fields as microseconds since
    0001-01-01T00:00:00, and the UTC offset in microseconds of an aware value
    ([None] for a naive one). *)
Record datetime := mkDT {
  dt_hour : Z;
  dt_wall : Z;
  dt_utcoffset : option Z;
}.

Global Instance datetime_eq_dec : EqDecision datetime.
Proof. solve_decision. Defined.

(** The instant compared or subtracted: wall clock for two naive values, UTC
    for two aware ones. *)
Definition dt_instant (a : datetime) : Z :=
  match dt_utcoffset a with
  | Some off => dt_wall a - off
  | None => dt_wall a
  end.

Definition dt_aware (a : datetime) : bool :=
  match dt_utcoffset a with Some _ => true | None => false end.

(** [a < b]: "can't compare offset-naive and offset-aware datetimes". *)
Definition dt_lt (a b : datetime) : result bool :=
  if Bool.eqb (dt_aware a) (dt_aware b)
  then Ok (dt_instant a <? dt_instant b)
  else Raise TypeError.

(** [a - b], as the microseconds of the resulting timedelta: "can't subtract
    offset-naive and offset-aware datetimes". *)
Definition dt_sub (a b : datetime) : result Z :=
  if Bool.eqb (dt_aware a) (dt_aware b)
  then Ok (dt_instant a - dt_instant b)
  else Raise TypeError.

(** [timestamp_str.replace("Z", "+00:00")]: every occurrence is replaced. *)
Fixpoint replace_Z (s : string) : string :=
  match s with
  | EmptyString => EmptyString
  | String c s' =>
      if Ascii.eqb c "Z"%char then "+00:00" +:+ replace_Z s'
      else String c (replace_Z s')
  end.

(** *** A fragment of [datetime.fromisoformat]

    The strings [YYYY-MM-DDTHH:MM:SS], with an optional [.ffffff] and an
    optional [+HH:MM] or [-HH:MM] suffix, on which this function returns
    what Python returns; any other string is rejected here.  It instantiates the parser in the examples; the
    rules and their theorems are stated for an arbitrary parser. *)
Definition digit (c : ascii) : option Z :=
  let n := Z.of_nat (nat_of_ascii c) in
  if (48 <=? n) && (n <=? 57) then Some (n - 48) else None.

Fixpoint digits (n : nat) (acc : Z) (s : string) : option (Z * string) :=
  match n with
  | O => Some (acc, s)
  | S n' =>
      match s with
      | String c s' => d ← digit c; digits n' (10 * acc + d) s'
      | EmptyString => None
      end
  end.

Definition expect (c : ascii) (s : string) : option string :=
  match s with
  | String c' s' => if Ascii.eqb c c' then Some s' else None
  | EmptyString => None
  end.

Definition is_leap (y : Z) : bool :=
  (y mod 4 =? 0) && (negb (y mod 100 =? 0) || (y mod 400 =? 0)).

Definition days_in_month (y m : Z) : Z :=
  if m =? 2 then (if is_leap y then 29 else 28)
  else if (m =? 4) || (m =? 6) || (m =? 9) || (m =? 11) then 30 else 31.

Definition days_before_year (y : Z) : Z :=
  let p := y - 1 in p * 365 + p / 4 - p / 100 + p / 400.

Fixpoint days_before_month_aux (y : Z) (m : nat) : Z :=
  match m with
  | O => 0
  | S m' => days_before_month_aux y m' + days_in_month y (Z.of_nat m)
  end.

Definition days_before_month (y m : Z) : Z :=
  days_before_month_aux y (Z.to_nat (m - 1)).

Definition ymd2ord (y m d : Z) : Z :=
  days_before_year y + days_before_month y m + d.

Definition in_range (lo hi x : Z) : bool := (lo <=? x) && (x <=? hi).

Definition parse_offset (s : string) : option (option Z) :=
  match s with
  | EmptyString => Some None
  | String c s' =>
      sign ← (if Ascii.eqb c "+"%char then Some 1
              else if Ascii.eqb c "-"%char then Some (-1) else None);
      '(hh, s1) ← digits 2 0 s';
      s2 ← expect ":"%char s1;
      '(mm, s3) ← digits 2 0 s2;
      if decide (s3 = EmptyString) then
        if in_range 0 23 hh && in_range 0 59 mm
        then Some (Some (sign * (hh * 3600 + mm * 60) * 1000000))
        else None
      else None
  end.

(** An optional [.ffffff]: six digits of microseconds. *)
Definition parse_fraction (s : string) : option (Z * string) :=
  match s with
  | String c s' => if Ascii.eqb c "."%char then digits 6 0 s' else Some (0, s)
  | EmptyString => Some (0, s)
  end.

Definition fromisoformat_basic (s : string) : option datetime :=
  '(y, s1) ← digits 4 0 s;
  s2 ← expect "-"%char s1;
  '(m, s3) ← digits 2 0 s2;
  s4 ← expect "-"%char s3;
  '(d, s5) ← digits 2 0 s4;
  s6 ← expect "T"%char s5;
  '(hh, s7) ← digits 2 0 s6;
  s8 ← expect ":"%char s7;
  '(mi, s9) ← digits 2 0 s8;
  s10 ← expect ":"%char s9;
  '(ss, s11) ← digits 2 0 s10;
  '(us, s12) ← parse_fraction s11;
  off ← parse_offset s12;
  if in_range 1 9999 y && in_range 1 12 m && in_range 1 (days_in_month y m) d
     && in_range 0 23 hh && in_range 0 59 mi && in_range 0 59 ss
  then Some (mkDT hh
               (((((ymd2ord y m d - 1) * 24 + hh) * 60 + mi) * 60 + ss) * 1000000
                + us)
               off)
  else None.

(** ** Rules 3 and 4 and the aggregator, for a given timestamp parser

    [fromisoformat s = None] stands for [datetime.fromisoformat(s)] raising,
    which both rules catch ([except Exception: pass]). *)
Section Engine.

Variable fromisoformat : string → option datetime.

(** [datetime.fromisoformat(timestamp_str.replace("Z", "+00:00"))] *)
Definition parse_ts (timestamp_str : string) : option datetime :=
  fromisoformat (replace_Z timestamp_str).

(** *** Rule 3: login at an unusual time (stateless) *)

Definition unusual_time_alert (u : string) (h : Z) (r : LogRecord) : Alert :=
  {| a_user := u; a_reason := "unusual_login_time"; a_severity := "low";
     a_origin := None; a_failed_count := None; a_hour := Some h;
     a_logins_in_window := None; a_window_seconds := None;
     a_record := Some r |}.

Definition unusual_time_body (outside_hours : Z * Z) (alerts : list Alert)
  (r : LogRecord) : list Alert :=
  if negb (type_is "login" r) then alerts else
  match truthy (r_user r), truthy (r_timestamp r) with
  | Some user, Some timestamp_str =>
      match parse_ts timestamp_str with
      | Some ts =>
          let hour := dt_hour ts in
          if (hour >=? outside_hours.1) || (hour <? outside_hours.2)
          then alerts ++ [unusual_time_alert user hour r]
          else alerts
      | None => alerts
      end
  | _, _ => alerts
  end.

Definition rule_login_unusual_time (outside_hours : Z * Z)
  (logs : list LogRecord) : list Alert :=
  fold_left (unusual_time_body outside_hours) logs [].

(** The body run on one record alone. *)
Definition unusual_time_step (outside_hours : Z * Z) (r : LogRecord)
  : list Alert :=
  unusual_time_body outside_hours [] r.

(** *** Rule 4: rapid multiple logins (state local to the call) *)

(** [user_login_times[user].append(ts)] on the local defaultdict, whose
    [items()] are later visited in the order the keys were first inserted. *)
Fixpoint dd_append (d : list (string * list datetime)) (user : string)
  (ts : datetime) : list (string * list datetime) :=
  match d with
  | [] => [(user, [ts])]
  | (k, v) :: d' =>
      if decide (k = user) then (k, v ++ [ts]) :: d'
      else (k, v) :: dd_append d' user ts
  end.

Definition collect_body (d : list (string * list datetime)) (r : LogRecord)
  : list (string * list datetime) :=
  if negb (type_is "login" r) then d else
  match truthy (r_user r), truthy (r_timestamp r) with
  | Some user, Some timestamp_str =>
      match parse_ts timestamp_str with
      | Some ts => dd_append d user ts
      | None => d
      end
  | _, _ => d
  end.

Definition collect_login_times (logs : list LogRecord)
  : list (string * list datetime) :=
  fold_left collect_body logs [].

(** [times.sort()]: a stable sort that only asks [<]; a comparison that
    raises aborts it. *)
Fixpoint insert_time (x : datetime) (l : list datetime)
  : result (list datetime) :=
  match l with
  | [] => Ok [x]
  | y :: l' =>
      b ←! dt_lt y x;
      if b : bool then (l'' ←! insert_time x l'; Ok (y :: l''))
      else Ok (x :: y :: l')
  end.

Fixpoint sort_times (l : list datetime) : result (list datetime) :=
  match l with
  | [] => Ok []
  | x :: l' => s ←! sort_times l'; insert_time x s
  end.

(** The [for i in range(len(times) - 1)] scan up to its [break].
    [delta = (times[i + 1] - times[i]).total_seconds()] is the difference in
    microseconds divided by 10^6 and rounded to a double; for an integer
    window below 2^33 seconds (the engine passes 60) the double is above 0
    and below the window exactly when the quotient is, so
    [0 < delta < window_seconds] is decided on the microseconds. *)
Fixpoint scan_pairs (window_seconds : Z) (times : list datetime)
  : result bool :=
  match times with
  | a :: (b :: _) as rest =>
      delta ←! dt_sub b a;
      if (0 <? delta) && (delta <? window_seconds * 1000000) then Ok true
      else scan_pairs window_seconds rest
  | _ => Ok false
  end.

(** The "record" of this alert is
    [times[i].__dict__ if hasattr(times[i], '__dict__') else None]; a
    [datetime.datetime] instance has no [__dict__], so it is [None]. *)
Definition rapid_alert (u : string) (n : nat) (window_seconds : Z) : Alert :=
  {| a_user := u; a_reason := "rapid_logins"; a_severity := "medium";
     a_origin := None; a_failed_count := None; a_hour := None;
     a_logins_in_window := Some n; a_window_seconds := Some window_seconds;
     a_record := None |}.

Definition rapid_user_body (window_seconds : Z) (acc : result (list Alert))
  (entry : string * list datetime) : result (list Alert) :=
  alerts ←! acc;
  let '(user, times) := entry in
  sorted ←! sort_times times;
  hit ←! scan_pairs window_seconds sorted;
  Ok (if hit : bool
      then alerts ++ [rapid_alert user (length sorted) window_seconds]
      else alerts).

Definition rule_rapid_multiple_logins (window_seconds : Z)
  (logs : list LogRecord) : result (list Alert) :=
  fold_left (rapid_user_body window_seconds) (collect_login_times logs)
    (Ok []).

(** *** The aggregator *)

(** [severity_order.get(x.get("severity", "low"), 3)] *)
Definition severity_rank (a : Alert) : nat :=
  let s := a_severity a in
  if decide (s = "high") then 0%nat
  else if decide (s = "medium") then 1%nat
  else if decide (s = "low") then 2%nat
  else 3%nat.

(** [results.sort(key=...)]: a stable sort on the rank. *)
Fixpoint insert_alert (x : Alert) (l : list Alert) : list Alert :=
  match l with
  | [] => [x]
  | y :: l' =>
      if (severity_rank y <? severity_rank x)%nat then y :: insert_alert x l'
      else x :: y :: l'
  end.

Fixpoint sort_by_severity (l : list Alert) : list Alert :=
  match l with
  | [] => []
  | x :: l' => insert_alert x (sort_by_severity l')
  end.

(** The state is returned beside the outcome: what rules 1 and 2 wrote to the
    module-level dictionaries stays written when rule 4 raises. *)
Definition detect_all (st : State) (logs : list LogRecord)
  : State * result (list Alert) :=
  let '(st1, a1) := rule_login_from_new_origin st logs in
  let '(st2, a2) := rule_failed_login_threshold default_threshold st1 logs in
  let a3 := rule_login_unusual_time default_outside_hours logs in
  (st2,
   a4 ←! rule_rapid_multiple_logins default_window_seconds logs;
   Ok (sort_by_severity (a1 ++ a2 ++ a3 ++ a4))).

(** A sequence of calls on the same process: the state of one call is the
    state the next one starts from. *)
Fixpoint detect_calls (st : State) (batches : list (list LogRecord))
  : State * list (result (list Alert)) :=
  match batches with
  | [] => (st, [])
  | b :: bs =>
      let '(st1, out) := detect_all st b in
      let '(st2, outs) := detect_calls st1 bs in
      (st2, out :: outs)
  end.

End Engine.

(** ** Vocabulary of the statements *)

(** A loop body run on its own: the state after one record and the alerts it
    appended. *)
Definition new_origin_step (st : State) (r : LogRecord) : State * list Alert :=
  new_origin_body (st, []) r.

Definition failed_login_step (threshold : Z) (st : State) (r : LogRecord)
  : State * list Alert :=
  failed_login_body threshold (st, []) r.

Fixpoint steps {S : Type} (step : S → LogRecord → S * list Alert) (st : S)
  (logs : list LogRecord) : S * list Alert :=
  match logs with
  | [] => (st, [])
  | r :: rest =>
      let '(st1, out1) := step st r in
      let '(st2, out2) := steps step st1 rest in
      (st2, out1 ++ out2)
  end.

(** A rule called once per batch, each call starting where the last ended. *)
Fixpoint rule_calls (rule : State → list LogRecord → State * list Alert)
  (st : State) (batches : list (list LogRecord)) : State * list (list Alert) :=
  match batches with
  | [] => (st, [])
  | b :: bs =>
      let '(st1, out) := rule st b in
      let '(st2, outs) := rule_calls rule st1 bs in
      (st2, out :: outs)
  end.

(** The alerts a caller received over a sequence of calls. *)
Definition returned (out : result (list Alert)) : list Alert :=
  match out with Ok alerts => alerts | Raise _ => [] end.

Definition alerts_of (outs : list (result (list Alert))) : list Alert :=
  concat (returned <$> outs).

(** Records and alerts of a user. *)
Definition is_failed_login_of (u : string) (r : LogRecord) : bool :=
  type_is "failed_login" r && bool_decide (r_user r = Some u).

Definition is_login_from (u o : string) (r : LogRecord) : bool :=
  type_is "login" r && bool_decide (r_user r = Some u)
  && bool_decide (r_origin r = Some o).

Definition is_failed_alert_of (u : string) (a : Alert) : bool :=
  bool_decide (a_reason a = "failed_login_threshold")
  && bool_decide (a_user a = u).

Definition is_new_origin_for (u o : string) (a : Alert) : bool :=
  bool_decide (a_reason a = "new_origin") && bool_decide (a_user a = u)
  && bool_decide (a_origin a = Some o).

(** Two states a reader cannot tell apart: a key bound to the default value
    reads like a missing key. *)
Definition state_equiv (st1 st2 : State) : Prop :=
  ∀ u, seen st1 u = seen st2 u ∧ failed st1 u = failed st2 u.

(** The enumerated reason/severity pairs. *)
Definition wire_ok (a : Alert) : Prop :=
  (a_reason a = "new_origin" ∧ a_severity a = "medium")
  ∨ (a_reason a = "failed_login_threshold" ∧ a_severity a = "high")
  ∨ (a_reason a = "unusual_login_time" ∧ a_severity a = "low")
  ∨ (a_reason a = "rapid_logins" ∧ a_severity a = "medium").

Definition has_severity (s : string) (a : Alert) : bool :=
  bool_decide (a_severity a = s).

Definition has_rank (k : nat) (a : Alert) : bool :=
  bool_decide (severity_rank a = k).

(** The records that rule 2 counts for a user, and those that rule 1 marks
    an origin with: type, then a truthy user (and origin). *)
Definition counted_for (u : string) (r : LogRecord) : bool :=
  type_is "failed_login" r && bool_decide (truthy (r_user r) = Some u).

Definition adds_origin (u o : string) (r : LogRecord) : bool :=
  type_is "login" r && bool_decide (truthy (r_user r) = Some u)
  && bool_decide (truthy (r_origin r) = Some o).

(** The timestamps rule 4 gathers for a user, in batch order. *)
Definition login_time (fromisoformat : string → option datetime) (u : string)
  (r : LogRecord) : option datetime :=
  if type_is "login" r && bool_decide (truthy (r_user r) = Some u)
  then ts ← truthy (r_timestamp r); parse_ts fromisoformat ts
  else None.

Definition login_times (fromisoformat : string → option datetime) (u : string)
  (logs : list LogRecord) : list datetime :=
  omap (login_time fromisoformat u) logs.

(** Timestamps that can be compared with one another: all naive or all
    aware. *)
Definition comparable (times : list datetime) : Prop :=
  ∀ a b, a ∈ times → b ∈ times → dt_aware a = dt_aware b.

Global Instance comparable_dec times : Decision (comparable times).
Proof.
  refine (cast_if (decide (Forall (λ a, Forall (λ b, dt_aware a = dt_aware b)
                                          times) times)));
    unfold comparable; rewrite Forall_forall in *.
  - intros a b Ha Hb. specialize (f a Ha). rewrite Forall_forall in f. auto.
  - intros H. apply n. intros a Ha. apply Forall_forall. auto.
Defined.

(** Two of the timestamps are less than the window apart and not
    simultaneous. *)
Definition close (window_seconds : Z) (a b : datetime) : bool :=
  (0 <? dt_instant b - dt_instant a)
  && (dt_instant b - dt_instant a <? window_seconds * 1000000).

Definition close_pair (window_seconds : Z) (times : list datetime) : bool :=
  existsb (λ a, existsb (close window_seconds a) times) times.

(** The same on neighbours, as the scan asks it. *)
Fixpoint close_neighbours (window_seconds : Z) (times : list datetime)
  : bool :=
  match times with
  | a :: (b :: _) as rest =>
      close window_seconds a b || close_neighbours window_seconds rest
  | _ => false
  end.

(** The value under a key of the local dict, [[]] when the key is missing. *)
Fixpoint dd_times (d : list (string * list datetime)) (u : string)
  : list datetime :=
  match d with
  | [] => []
  | (k, v) :: d' => if decide (k = u) then v else dd_times d' u
  end.

(** The visit of one entry of [user_login_times.items()] on its own, and of
    the entries one after the other. *)
Definition rapid_user_step (window_seconds : Z)
  (entry : string * list datetime) : result (list Alert) :=
  rapid_user_body window_seconds (Ok []) entry.

Fixpoint rapid_entries (window_seconds : Z)
  (entries : list (string * list datetime)) : result (list Alert) :=
  match entries with
  | [] => Ok []
  | e :: es =>
      out ←! rapid_user_step window_seconds e;
      outs ←! rapid_entries window_seconds es;
      Ok (out ++ outs)
  end.

Definition by_instant (a b : datetime) : Prop :=
  dt_instant a ≤ dt_instant b.

(** Sample records. *)
Definition failed_login_of (u ip : string) : LogRecord :=
  mkLog (Some "failed_login") (Some u) None (Some ip) None.

Definition login_of (u o ts : string) : LogRecord :=
  mkLog (Some "login") (Some u) (Some o) None (Some ts).

Definition login_at (u ts : string) : LogRecord :=
  mkLog (Some "login") (Some u) None None (Some ts).

(** Where an alert comes from. *)
Definition from_new_origin (r : LogRecord) (a : Alert) : Prop :=
  ∃ u o, a = new_origin_alert u o r ∧ r_user r = Some u ∧ r_origin r = Some o.

Definition from_failed_login (r : LogRecord) (a : Alert) : Prop :=
  ∃ u n, a = failed_login_alert u n r ∧ r_user r = Some u.

Definition from_unusual_time (r : LogRecord) (a : Alert) : Prop :=
  ∃ u h, a = unusual_time_alert u h r ∧ r_user r = Some u.

(** ** Vocabulary of the further properties *)

(** A record some rule can act on: a login or a failed login with a truthy
    user. *)
Definition relevant (r : LogRecord) : bool :=
  (type_is "login" r || type_is "failed_login" r)
  && match truthy (r_user r) with Some _ => true | None => false end.

Definition has_reason (reason : string) (a : Alert) : bool :=
  bool_decide (a_reason a = reason).

(** A login that rule 3 can read the hour of: its user and the datetime its
    timestamp parses to. *)
Definition timed_login (fromisoformat : string → option datetime)
  (r : LogRecord) : option (string * datetime) :=
  if type_is "login" r then
    u ← truthy (r_user r); ts ← truthy (r_timestamp r);
    dt ← parse_ts fromisoformat ts; Some (u, dt)
  else None.

(** ** The clock and [isoformat]

    A reading of [datetime.utcnow()]: the fields of a naive datetime.
    [isoformat()] prints them as [%04d-%02d-%02dT%02d:%02d:%02d], followed by
    [.%06d] when the microsecond is not zero. *)
Record civil := mkCivil {
  c_year : Z;
  c_month : Z;
  c_day : Z;
  c_hour : Z;
  c_minute : Z;
  c_second : Z;
  c_microsecond : Z;
}.

Definition valid_civil (c : civil) : Prop :=
  1 ≤ c_year c ≤ 9999 ∧ 1 ≤ c_month c ≤ 12
  ∧ 1 ≤ c_day c ≤ days_in_month (c_year c) (c_month c)
  ∧ 0 ≤ c_hour c ≤ 23 ∧ 0 ≤ c_minute c ≤ 59 ∧ 0 ≤ c_second c ≤ 59
  ∧ 0 ≤ c_microsecond c ≤ 999999.

Definition digit_char (d : Z) : ascii := ascii_of_nat (Z.to_nat (48 + d)).

(** [%0nd] of a number below 10^n. *)
Fixpoint pad (n : nat) (z : Z) : string :=
  match n with
  | O => EmptyString
  | S n' => String (digit_char ((z / 10 ^ Z.of_nat n') mod 10)) (pad n' z)
  end.

Definition isoformat (c : civil) : string :=
  pad 4 (c_year c) +:+ "-" +:+ pad 2 (c_month c) +:+ "-" +:+ pad 2 (c_day c)
  +:+ "T" +:+ pad 2 (c_hour c) +:+ ":" +:+ pad 2 (c_minute c) +:+ ":"
  +:+ pad 2 (c_second c)
  +:+ (if c_microsecond c =? 0 then "" else "." +:+ pad 6 (c_microsecond c)).

(** [datetime.utcnow().isoformat() + "Z"] *)
Definition utc_stamp (now : civil) : string := isoformat now +:+ "Z".

(** ** Ingestion (src/cortexsoc/ingest.py)

    The storage layer sits on a database and is kept abstract: [None] for
    [storage.is_initialized()] being false, otherwise the function the call
    performs, whose [None] stands for a raised exception (both callers catch
    every exception and fall back to memory).  A record whose [r_timestamp] is
    [None] has no "timestamp" key. *)

(** [sequence[start:]] *)
Definition slice_from {A} (l : list A) (start : Z) : list A :=
  if start <? 0
  then drop (Z.to_nat (Z.max 0 (Z.of_nat (length l) + start))) l
  else drop (Z.to_nat start) l.

(** The first statement of [ingest_log]: a missing timestamp is set from the
    clock, read as [now]. *)
Definition stamp (now : civil) (record : LogRecord) : LogRecord :=
  match r_timestamp record with
  | None =>
      mkLog (r_type record) (r_user record) (r_origin record) (r_ip record)
        (Some (utc_stamp now))
  | Some _ => record
  end.

Definition ingest_log (now : civil)
  (storage_write_log : option (LogRecord → option LogRecord))
  (_logs : list LogRecord) (record : LogRecord)
  : list LogRecord * LogRecord :=
  let record := stamp now record in
  match storage_write_log with
  | Some write_log =>
      match write_log record with
      | Some stored => (_logs, stored)
      | None => (_logs ++ [record], record)
      end
  | None => (_logs ++ [record], record)
  end.

Definition get_logs
  (storage_get_logs : option (Z → option (list LogRecord)))
  (_logs : list LogRecord) (limit : Z) : list LogRecord :=
  match storage_get_logs with
  | Some db_get_logs =>
      match db_get_logs limit with
      | Some rows => rows
      | None => slice_from _logs (- limit)
      end
  | None => slice_from _logs (- limit)
  end.

(** ** Response (src/cortexsoc/respond.py) *)

Inductive ActionStatus := PENDING | SUCCESS | FAILED | SKIPPED.

(** An entry of [Incident.actions]. *)
Record Action := mkAction {
  act_action : string;
  act_target : string;
  act_status : ActionStatus;
  act_timestamp : string;
  act_details : string;
}.

Record Incident := mkIncident {
  inc_id : Z;
  inc_alert_id : string;
  inc_alert_reason : string;
  inc_user : option string;
  inc_ip : option string;
  inc_created_at : string;
  inc_actions : list Action;
  inc_status : string;
}.

(** What the response layer reads of an alert, each through [alert.get]. *)
Record AlertDict := mkAlertDict {
  d_id : option string;
  d_reason : option string;
  d_severity : option string;
  d_user : option string;
  d_ip : option string;
}.

(** An alert of the detection rules as the response layer reads it: the
    rules set "user", "reason" and "severity" and never "id" or "ip". *)
Definition alert_view (a : Alert) : AlertDict :=
  {| d_id := None; d_reason := Some (a_reason a);
     d_severity := Some (a_severity a); d_user := Some (a_user a);
     d_ip := None |}.

(** The dict the three response actions return; [out_target] is the value
    under "ip", "user" or "channel". *)
Record Outcome := mkOutcome {
  out_action : string;
  out_target : string;
  out_status : ActionStatus;
  out_details : string;
}.

(** The module state: the incident log, the id counter, and how many times
    the module has read the clock.  An [Incident] object is referred to by
    its position in [_incidents], where [create_incident] puts it. *)
Record Responder := mkResponder {
  _incidents : list Incident;
  _incident_counter : Z;
  clock_reads : nat;
}.

Definition no_incidents : Responder := mkResponder [] 0 0.

(** [str(x)] inside an f-string for an optional string. *)
Definition str_of (o : option string) : string := default "None" o.

Section Respond.

(** The successive readings of [datetime.utcnow()]. *)
Variable utcnow : nat → civil.

Definition Incident_init (alert_id alert_reason : string)
  (user ip : option string) (st : Responder) : Responder * Incident :=
  let id := _incident_counter st + 1 in
  (mkResponder (_incidents st) id (S (clock_reads st)),
   mkIncident id alert_id alert_reason user ip
     (utc_stamp (utcnow (clock_reads st))) [] "active").

(** [self.actions.append(entry)] *)
Definition record_action (entry : Action) (i : Incident) : Incident :=
  mkIncident (inc_id i) (inc_alert_id i) (inc_alert_reason i) (inc_user i)
    (inc_ip i) (inc_created_at i) (inc_actions i ++ [entry]) (inc_status i).

Definition add_action (incident : nat) (action target : string)
  (status : ActionStatus) (details : string) (st : Responder) : Responder :=
  let entry :=
    mkAction action target status (utc_stamp (utcnow (clock_reads st)))
      details in
  mkResponder (alter (record_action entry) incident (_incidents st))
    (_incident_counter st) (S (clock_reads st)).

Definition create_incident (alert : AlertDict) (st : Responder)
  : Responder * nat :=
  let '(st1, incident) :=
    Incident_init (default "unknown" (d_id alert))
      (default "unknown" (d_reason alert)) (d_user alert) (d_ip alert) st in
  (mkResponder (_incidents st1 ++ [incident]) (_incident_counter st1)
     (clock_reads st1),
   length (_incidents st1)).

Definition block_ip (ip : string) (incident : option nat) (st : Responder)
  : Responder * Outcome :=
  let status := SUCCESS in
  let details := "IP " +:+ ip +:+ " added to blocklist (mock action)" in
  (match incident with
   | Some i => add_action i "block_ip" ip status details st
   | None => st
   end,
   mkOutcome "block_ip" ip status details).

Definition disable_account (user : string) (incident : option nat)
  (st : Responder) : Responder * Outcome :=
  let status := SUCCESS in
  let details := "User " +:+ user +:+ " account disabled (mock action)" in
  (match incident with
   | Some i => add_action i "disable_account" user status details st
   | None => st
   end,
   mkOutcome "disable_account" user status details).

Definition send_alert (channel message : string) (incident : option nat)
  (st : Responder) : Responder * Outcome :=
  let status := SUCCESS in
  let details := "Alert sent to " +:+ channel +:+ ": " +:+ message in
  (match incident with
   | Some i => add_action i "alert" channel status details st
   | None => st
   end,
   mkOutcome "alert" channel status details).

(** The playbook; the incident is returned by its position. *)
Definition auto_respond_to_alert (alert : AlertDict) (st : Responder)
  : Responder * nat :=
  let '(st, incident) := create_incident alert st in
  let severity := default "low" (d_severity alert) in
  let reason := default "" (d_reason alert) in
  let user := d_user alert in
  let ip := d_ip alert in
  if decide (severity = "high") then
    let st :=
      match truthy user with
      | Some u =>
          if decide (reason = "failed_login_threshold") then
            let st := (disable_account u (Some incident) st).1 in
            (send_alert "ops"
               ("High: Disabled account " +:+ u
                +:+ " due to failed login threshold")
               (Some incident) st).1
          else st
      | None => st
      end in
    let st :=
      match truthy ip with
      | Some i =>
          let st := (block_ip i (Some incident) st).1 in
          (send_alert "ops" ("High: Blocked IP " +:+ i) (Some incident) st).1
      | None => st
      end in
    (st, incident)
  else if decide (severity = "medium") then
    ((send_alert "security"
        ("Medium: " +:+ reason +:+ " - User: " +:+ str_of user +:+ ", IP: "
         +:+ str_of ip)
        (Some incident) st).1,
     incident)
  else
    ((send_alert "logs" ("Low: " +:+ reason) (Some incident) st).1, incident).

(** [get_incidents] and [get_incident]; [to_dict] lists every field of the
    incident. *)
Definition get_incidents (st : Responder) : list Incident := _incidents st.

Definition get_incident (incident_id : Z) (st : Responder)
  : option Incident :=
  find (λ i, inc_id i =? incident_id) (_incidents st).

(** ** The HTTP handlers that drive them (src/cortexsoc/app.py) *)

Inductive HTTPException :=
  | HTTP400 (detail : string)
  | HTTP404 (detail : string).

Definition api_respond (action target : string) (st : Responder)
  : Responder * (HTTPException + Outcome) :=
  if decide (action = "block_ip") then
    let '(st, out) := block_ip target None st in (st, inr out)
  else if decide (action = "disable_account") then
    let '(st, out) := disable_account target None st in (st, inr out)
  else if decide (action = "alert") then
    let '(st, out) := send_alert "ops" target None st in (st, inr out)
  else (st, inl (HTTP400 "unknown action")).

Definition api_get_incident (incident_id : Z) (st : Responder)
  : HTTPException + Incident :=
  match get_incident incident_id st with
  | Some incident => inr incident
  | None => inl (HTTP404 "incident not found")
  end.

(** The loop of [api_detect_and_respond]. *)
Fixpoint respond_each (alerts : list AlertDict) (st : Responder)
  (incidents : list Incident) : Responder * list Incident :=
  match alerts with
  | [] => (st, incidents)
  | alert :: rest =>
      let '(st, incident) := auto_respond_to_alert alert st in
      respond_each rest st
        (incidents ++ option_list (_incidents st !! incident))
  end.

Record DetectAndRespond := mkDetectAndRespond {
  alerts_generated : nat;
  incidents_created : nat;
  incidents : list Incident;
}.

End Respond.

Definition api_detect_and_respond (utcnow : nat → civil)
  (fromisoformat : string → option datetime)
  (storage_get_logs : option (Z → option (list LogRecord)))
  (_logs : list LogRecord) (det : State) (st : Responder)
  : State * Responder * result DetectAndRespond :=
  let logs := get_logs storage_get_logs _logs 100 in
  let '(det, outcome) := detect_all fromisoformat det logs in
  match outcome with
  | Ok alerts =>
      let '(st, incidents) :=
        respond_each utcnow (alert_view <$> alerts) st [] in
      (det, st,
       Ok (mkDetectAndRespond (length alerts) (length incidents) incidents))
  | Raise e => (det, st, Raise e)
  end.

(** [api_ingest]: the request model has the fields type, user, origin, ip
    and raw, so the dict handed to [ingest_log] has no "timestamp" key. *)
Definition api_ingest (now : civil)
  (storage_write_log : option (LogRecord → option LogRecord))
  (_logs : list LogRecord) (type : string) (user origin ip : option string)
  : list LogRecord * LogRecord :=
  ingest_log now storage_write_log _logs
    (mkLog (Some type) user origin ip None).

(** Requests ingested one after the other, each with its clock reading. *)
Definition ingest_each
  (storage_write_log : option (LogRecord → option LogRecord))
  (requests : list (civil * LogRecord)) (_logs : list LogRecord)
  : list LogRecord :=
  fold_left (λ logs req, (ingest_log req.1 storage_write_log logs req.2).1)
    requests _logs.

(** A record whose timestamp was written from a clock reading. *)
Definition clock_stamped (r : LogRecord) : Prop :=
  ∃ c, valid_civil c ∧ r_timestamp r = Some (utc_stamp c).

(** The ids of the incident log are 1, 2, ... up to the counter. *)
Definition well_numbered (st : Responder) : Prop :=
  0 ≤ _incident_counter st
  ∧ inc_id <$> _incidents st = seqZ 1 (_incident_counter st).

(** The actions recorded on an incident, each with its target. *)
Definition actions_taken (i : Incident) : list (string * string) :=
  (λ a, (act_action a, act_target a)) <$> inc_actions i.

(** The incident [create_incident] makes of an alert. *)
Definition incident_of (alert : AlertDict) (inc : Incident) : Prop :=
  inc_alert_id inc = default "unknown" (d_id alert)
  ∧ inc_alert_reason inc = default "unknown" (d_reason alert)
  ∧ inc_user inc = d_user alert ∧ inc_ip inc = d_ip alert
  ∧ inc_status inc = "active".

Definition api_detect (fromisoformat : string → option datetime)
  (storage_get_logs : option (Z → option (list LogRecord)))
  (_logs : list LogRecord) (det : State) : State * result (list Alert) :=
  detect_all fromisoformat det (get_logs storage_get_logs _logs 100).

(** ** The parser fragment on the timestamps used below *)

Example fromisoformat_naive :
  fromisoformat_basic "2024-01-01T23:15:00"
  = Some (mkDT 23 63839747700000000 None).
Proof. reflexivity. Qed.

Example fromisoformat_zulu :
  parse_ts fromisoformat_basic "2024-01-01T03:00:10Z"
  = Some (mkDT 3 63839674810000000 (Some 0)).
Proof. reflexivity. Qed.

Example fromisoformat_offset :
  dt_instant <$> fromisoformat_basic "2024-01-01T03:00:10.250000+02:00"
  = Some (63839674810250000 - 7200000000).
Proof. reflexivity. Qed.

Example fromisoformat_rejects :
  fromisoformat_basic "soon" = None
  ∧ fromisoformat_basic "2024-02-30T00:00:00" = None.
Proof. split; reflexivity. Qed.

(** ** The loops as per-record steps *)

Lemma steps_app {S} (step : S → LogRecord → S * list Alert) st l1 l2 :
  steps step st (l1 ++ l2)
  = ((steps step (steps step st l1).1 l2).1,
     (steps step st l1).2 ++ (steps step (steps step st l1).1 l2).2).
Proof.
  revert st. induction l1 as [|r l1 IH]; intros st; simpl.
  - by destruct (steps step st l2).
  - destruct (step st r) as [st1 o1]. rewrite IH.
    destruct (steps step st1 l1) as [st2 o2]; simpl.
    destruct (steps step st2 l2); simpl. by rewrite app_assoc.
Qed.

Lemma fold_left_steps {S} (body : S * list Alert → LogRecord → S * list Alert)
  step logs :
  (∀ st al r, body (st, al) r = ((step st r).1, al ++ (step st r).2)) →
  ∀ st al, fold_left body logs (st, al)
           = ((steps step st logs).1, al ++ (steps step st logs).2).
Proof.
  intros Hb. induction logs as [|r logs IH]; intros st al; simpl.
  - by rewrite app_nil_r.
  - rewrite Hb, IH. destruct (step st r) as [st1 o1]; simpl.
    destruct (steps step st1 logs); simpl. by rewrite app_assoc.
Qed.

Lemma new_origin_body_step st al r :
  new_origin_body (st, al) r
  = ((new_origin_step st r).1, al ++ (new_origin_step st r).2).
Proof.
  unfold new_origin_step, new_origin_body.
  destruct (negb _); [by rewrite app_nil_r|].
  destruct (truthy (r_user r)); [|by rewrite app_nil_r].
  destruct (truthy (r_origin r)); [|by rewrite app_nil_r].
  destruct (dd_getitem _ _ _).
  destruct (decide _); simpl; [by rewrite app_nil_r|done].
Qed.

Lemma failed_login_body_step t st al r :
  failed_login_body t (st, al) r
  = ((failed_login_step t st r).1, al ++ (failed_login_step t st r).2).
Proof.
  unfold failed_login_step, failed_login_body.
  destruct (negb _); [by rewrite app_nil_r|].
  destruct (truthy (r_user r)); [|by rewrite app_nil_r].
  destruct (dd_getitem _ _ _).
  destruct (decide _); simpl; [done|by rewrite app_nil_r].
Qed.

Lemma rule_login_from_new_origin_steps st logs :
  rule_login_from_new_origin st logs = steps new_origin_step st logs.
Proof.
  unfold rule_login_from_new_origin.
  rewrite (fold_left_steps _ new_origin_step) by apply new_origin_body_step.
  by destruct (steps _ _ _).
Qed.

Lemma rule_failed_login_threshold_steps t st logs :
  rule_failed_login_threshold t st logs = steps (failed_login_step t) st logs.
Proof.
  unfold rule_failed_login_threshold.
  rewrite (fold_left_steps _ (failed_login_step t))
    by apply failed_login_body_step.
  by destruct (steps _ _ _).
Qed.

(** ** Reads and writes of the defaultdicts *)

Lemma dd_getitem_value {V} (dflt : V) d k :
  (dd_getitem dflt d k).2 = default dflt (d !! k).
Proof. unfold dd_getitem. by destruct (d !! k). Qed.

Lemma dd_getitem_lookup {V} (dflt : V) d k k' :
  default dflt ((dd_getitem dflt d k).1 !! k') = default dflt (d !! k').
Proof.
  unfold dd_getitem. destruct (d !! k) eqn:E; simpl; [done|].
  destruct (decide (k = k')) as [->|]; [by rewrite lookup_insert_eq, E|].
  by rewrite lookup_insert_ne.
Qed.

Lemma truthy_Some o s : truthy o = Some s ↔ o = Some s ∧ s ≠ "".
Proof.
  unfold truthy. destruct o as [s'|]; [|naive_solver].
  destruct (decide (s' = "")); naive_solver.
Qed.

Lemma type_is_true t r : type_is t r = true ↔ r_type r = Some t.
Proof. unfold type_is. apply bool_decide_eq_true. Qed.

(** ** Rule 2: the running counter *)

Lemma failed_login_step_seen t st r :
  _seen_origins (failed_login_step t st r).1 = _seen_origins st.
Proof.
  unfold failed_login_step, failed_login_body.
  destruct (negb _); [done|]. destruct (truthy _); [|done].
  destruct (dd_getitem _ _ _). by destruct (decide _).
Qed.

Lemma is_failed_login_of_spec u r :
  u ≠ "" →
  is_failed_login_of u r = true
  ↔ type_is "failed_login" r = true ∧ truthy (r_user r) = Some u.
Proof.
  intros Hu. unfold is_failed_login_of.
  rewrite andb_true_iff, bool_decide_eq_true, truthy_Some. naive_solver.
Qed.

Lemma failed_login_step_hit t st r u :
  u ≠ "" → is_failed_login_of u r = true →
  failed (failed_login_step t st r).1 u = failed st u + 1
  ∧ filter (λ a, is_failed_alert_of u a) (failed_login_step t st r).2
    = if decide (failed st u + 1 >= t)
      then [failed_login_alert u (failed st u + 1) r] else [].
Proof.
  intros Hu [Ht Hr]%is_failed_login_of_spec; [|done].
  unfold failed_login_step, failed_login_body. rewrite Ht, Hr; simpl.
  pose proof (dd_getitem_value 0 (_failed_logins st) u) as Hv.
  destruct (dd_getitem _ _ _) as [d c]; simpl in Hv. subst c.
  fold (failed st u).
  destruct (decide _); simpl;
    (split; [unfold failed; simpl; by rewrite lookup_insert_eq|]); [|done].
  rewrite filter_cons_True; [done|].
  unfold is_failed_alert_of; simpl. by rewrite !bool_decide_eq_true_2.
Qed.

Lemma failed_login_step_miss t st r u :
  u ≠ "" → is_failed_login_of u r = false →
  failed (failed_login_step t st r).1 u = failed st u
  ∧ filter (λ a, is_failed_alert_of u a) (failed_login_step t st r).2 = [].
Proof.
  intros Hu Hr.
  unfold failed_login_step, failed_login_body.
  destruct (type_is "failed_login" r) eqn:Ht; simpl; [|done].
  destruct (truthy (r_user r)) as [u'|] eqn:Hu'; [|done].
  assert (u' ≠ u) as Hne.
  { intros ->. apply not_true_iff_false in Hr. apply Hr.
    by apply is_failed_login_of_spec. }
  pose proof (dd_getitem_lookup 0 (_failed_logins st) u' u) as Hl.
  destruct (dd_getitem _ _ _) as [d c]; simpl in Hl.
  assert (∀ st', _failed_logins st' = <[u' := c + 1]> d →
                 failed st' u = failed st u) as Hf.
  { intros st' E. unfold failed. by rewrite E, lookup_insert_ne. }
  destruct (decide _); simpl; (split; [by apply Hf|]); [|done].
  rewrite filter_cons_False; [done|].
  unfold is_failed_alert_of; simpl. by rewrite bool_decide_spec.
Qed.

Lemma failed_steps_spec t u logs st :
  u ≠ "" →
  let recs := filter (λ r, is_failed_login_of u r) logs in
  failed (steps (failed_login_step t) st logs).1 u
  = failed st u + Z.of_nat (length recs)
  ∧ filter (λ a, is_failed_alert_of u a) (steps (failed_login_step t) st logs).2
    = drop (Z.to_nat (t - 1 - failed st u))
        (zip_with (failed_login_alert u)
           (seqZ (failed st u + 1) (Z.of_nat (length recs))) recs).
Proof.
  intros Hu. revert st. induction logs as [|r logs IH]; intros st; simpl.
  - split; [lia|by rewrite drop_nil].
  - destruct (failed_login_step t st r) as [st1 o1] eqn:E1.
    specialize (IH st1). destruct (steps _ st1 logs) as [st2 o2].
    simpl in IH. destruct IH as [IHc IHa]. simpl.
    rewrite filter_app, IHa, IHc.
    destruct (is_failed_login_of u r) eqn:Hr.
    + destruct (failed_login_step_hit t st r u Hu Hr) as [Hc Ha].
      rewrite E1 in Hc, Ha; simpl in Hc, Ha. rewrite Ha, Hc.
      rewrite filter_cons_True by by rewrite Hr. simpl length.
      split; [lia|].
      rewrite Nat2Z.inj_succ, (seqZ_cons (failed st u + 1)) by lia.
      simpl zip_with.
      rewrite Z.pred_succ.
      replace (Z.succ (failed st u + 1)) with (failed st u + 1 + 1) by lia.
      destruct (decide _) as [Hge|Hlt].
      * replace (Z.to_nat (t - 1 - failed st u)) with 0%nat by lia.
        replace (Z.to_nat (t - 1 - (failed st u + 1))) with 0%nat by lia.
        done.
      * replace (Z.to_nat (t - 1 - failed st u))
          with (S (Z.to_nat (t - 1 - (failed st u + 1)))) by lia.
        done.
    + destruct (failed_login_step_miss t st r u Hu Hr) as [Hc Ha].
      rewrite E1 in Hc, Ha; simpl in Hc, Ha. rewrite Ha, Hc.
      rewrite filter_cons_False by (rewrite Hr; intros []). done.
Qed.

(** ** Rule 1: origins seen so far *)

Lemma new_origin_step_failed st r :
  _failed_logins (new_origin_step st r).1 = _failed_logins st.
Proof.
  unfold new_origin_step, new_origin_body.
  destruct (negb _); [done|]. destruct (truthy _); [|done].
  destruct (truthy _); [|done].
  destruct (dd_getitem _ _ _). by destruct (decide _).
Qed.

Lemma new_origin_step_hit st r u o :
  type_is "login" r = true →
  truthy (r_user r) = Some u → truthy (r_origin r) = Some o →
  (∀ u', seen (new_origin_step st r).1 u'
         = if decide (u' = u) then seen st u ∪ {[o]} else seen st u')
  ∧ (new_origin_step st r).2
    = if decide (o ∈ seen st u) then [] else [new_origin_alert u o r].
Proof.
  intros Ht Hu Ho. unfold new_origin_step, new_origin_body.
  rewrite Ht, Hu, Ho; simpl.
  pose proof (dd_getitem_value ∅ (_seen_origins st) u) as Hv.
  pose proof (dd_getitem_lookup ∅ (_seen_origins st) u) as Hl.
  destruct (dd_getitem _ _ _) as [d s]; simpl in Hv, Hl. subst s.
  fold (seen st u). destruct (decide (o ∈ seen st u)) as [Hin|Hin]; simpl.
  - split; [|done]. intros u'. unfold seen at 1; simpl. rewrite Hl.
    fold (seen st u'). destruct (decide (u' = u)) as [->|]; [|done].
    apply set_eq. set_solver.
  - split; [|done]. intros u'. unfold seen at 1; simpl.
    destruct (decide (u' = u)) as [->|].
    + by rewrite lookup_insert_eq.
    + rewrite lookup_insert_ne by done. apply Hl.
Qed.

Lemma new_origin_step_miss st r :
  type_is "login" r = false ∨ truthy (r_user r) = None
  ∨ truthy (r_origin r) = None →
  new_origin_step st r = (st, []).
Proof.
  unfold new_origin_step, new_origin_body.
  intros [->|[H|H]]; [done| |]; destruct (negb _); try done.
  - by rewrite H.
  - rewrite H. by destruct (truthy (r_user r)).
Qed.

Lemma is_login_from_spec u o r :
  u ≠ "" → o ≠ "" →
  is_login_from u o r = true
  ↔ type_is "login" r = true ∧ truthy (r_user r) = Some u
    ∧ truthy (r_origin r) = Some o.
Proof.
  intros Hu Ho. unfold is_login_from.
  rewrite !andb_true_iff, !bool_decide_eq_true, !truthy_Some. tauto.
Qed.

(** The effect of one record on the pair [(u, o)]. *)
Lemma new_origin_step_pair st r u o :
  u ≠ "" → o ≠ "" →
  (o ∈ seen (new_origin_step st r).1 u
   ↔ o ∈ seen st u ∨ is_login_from u o r = true)
  ∧ filter (λ a, is_new_origin_for u o a) (new_origin_step st r).2
    = if decide (o ∈ seen st u) then []
      else if is_login_from u o r then [new_origin_alert u o r] else [].
Proof.
  intros Hu Ho.
  destruct (type_is "login" r) eqn:Ht;
    [|rewrite new_origin_step_miss by auto; simpl;
      assert (is_login_from u o r = false) as ->
        by (unfold is_login_from; by rewrite Ht);
      split; [naive_solver|by destruct (decide _)]].
  destruct (truthy (r_user r)) as [u'|] eqn:Hu';
    [|rewrite new_origin_step_miss by auto; simpl;
      assert (is_login_from u o r = false) as ->
        by (apply not_true_iff_false; rewrite is_login_from_spec by done;
            naive_solver);
      split; [naive_solver|by destruct (decide _)]].
  destruct (truthy (r_origin r)) as [o'|] eqn:Ho';
    [|rewrite new_origin_step_miss by auto; simpl;
      assert (is_login_from u o r = false) as ->
        by (apply not_true_iff_false; rewrite is_login_from_spec by done;
            naive_solver);
      split; [naive_solver|by destruct (decide _)]].
  destruct (new_origin_step_hit st r u' o' Ht Hu' Ho') as [Hs Ha].
  rewrite Hs, Ha. clear Hs Ha.
  destruct (is_login_from u o r) eqn:Hr.
  - apply is_login_from_spec in Hr as (_ & ? & ?); [|done..].
    simplify_eq. rewrite decide_True by done. split; [set_solver|].
    destruct (decide _); [done|]. rewrite filter_cons_True; [done|].
    unfold is_new_origin_for; simpl. by rewrite !bool_decide_eq_true_2.
  - assert (¬ (u' = u ∧ o' = o)) as Hne.
    { intros [-> ->]. apply not_true_iff_false in Hr. apply Hr.
      by apply is_login_from_spec. }
    split.
    + destruct (decide (u = u')) as [->|]; [|naive_solver].
      rewrite elem_of_union, elem_of_singleton. naive_solver.
    + assert (filter (λ a, is_new_origin_for u o a)
                (if decide (o' ∈ seen st u') then []
                 else [new_origin_alert u' o' r]) = []) as ->.
      { destruct (decide _); [done|]. rewrite filter_cons_False; [done|].
        unfold is_new_origin_for; simpl.
        rewrite andb_True, !bool_decide_spec. naive_solver. }
      by destruct (decide _).
Qed.

Lemma new_origin_steps_pair u o logs st :
  u ≠ "" → o ≠ "" →
  (o ∈ seen (steps new_origin_step st logs).1 u
   ↔ o ∈ seen st u ∨ existsb (is_login_from u o) logs = true)
  ∧ filter (λ a, is_new_origin_for u o a) (steps new_origin_step st logs).2
    = if decide (o ∈ seen st u) then []
      else match find (is_login_from u o) logs with
           | Some r => [new_origin_alert u o r]
           | None => []
           end.
Proof.
  intros Hu Ho. revert st. induction logs as [|r logs IH]; intros st; simpl.
  - split; [naive_solver|by destruct (decide _)].
  - destruct (new_origin_step_pair st r u o Hu Ho) as [Hs Ha].
    destruct (new_origin_step st r) as [st1 o1]; simpl in Hs, Ha.
    destruct (IH st1) as [IHs IHa].
    destruct (steps new_origin_step st1 logs) as [st2 o2]; simpl in *.
    split; [rewrite IHs, Hs, orb_true_iff; tauto|].
    rewrite filter_app, Ha, IHa.
    destruct (decide (o ∈ seen st u)) as [Hin|Hin].
    + rewrite decide_True by (apply Hs; tauto). done.
    + destruct (is_login_from u o r).
      * rewrite decide_True by (apply Hs; tauto). done.
      * rewrite decide_False by (intros [?|?]%Hs; done). done.
Qed.

(** ** Stable sort on the severity rank *)

Lemma filter_cons_bool {A} (P : A → bool) x l :
  filter (λ a, P a) (x :: l)
  = if P x then x :: filter (λ a, P a) l else filter (λ a, P a) l.
Proof.
  destruct (P x) eqn:E.
  - by rewrite filter_cons_True by by rewrite E.
  - by rewrite filter_cons_False by (rewrite E; intros []).
Qed.

Lemma insert_alert_split x l1 l2 :
  Forall (λ y, (severity_rank y < severity_rank x)%nat) l1 →
  match l2 with
  | [] => True
  | y :: _ => (severity_rank x ≤ severity_rank y)%nat
  end →
  insert_alert x (l1 ++ l2) = l1 ++ x :: l2.
Proof.
  induction 1 as [|y l1 Hy _ IH]; intros H2; cbn [app insert_alert].
  - destruct l2 as [|y l2]; [done|]. cbn [insert_alert].
    by rewrite (proj2 (Nat.ltb_ge _ _)).
  - rewrite (proj2 (Nat.ltb_lt _ _)) by done. by rewrite IH.
Qed.

Lemma severity_rank_bound a : (severity_rank a ≤ 3)%nat.
Proof. unfold severity_rank. repeat case_decide; lia. Qed.

Lemma filter_has_rank_cons k x l :
  filter (λ a, has_rank k a) (x :: l)
  = if decide (severity_rank x = k) then x :: filter (λ a, has_rank k a) l
    else filter (λ a, has_rank k a) l.
Proof.
  unfold has_rank. destruct (decide _).
  - by rewrite filter_cons_True by by rewrite bool_decide_spec.
  - by rewrite filter_cons_False by by rewrite bool_decide_spec.
Qed.

Lemma Forall_filter_has_rank k l :
  Forall (λ a, severity_rank a = k) (filter (λ a, has_rank k a) l).
Proof.
  apply Forall_forall. intros a [Ha _]%list_elem_of_filter.
  unfold has_rank in Ha. by apply bool_decide_spec in Ha.
Qed.

Lemma sort_by_severity_groups l :
  sort_by_severity l
  = filter (λ a, has_rank 0 a) l ++ filter (λ a, has_rank 1 a) l
    ++ filter (λ a, has_rank 2 a) l ++ filter (λ a, has_rank 3 a) l.
Proof.
  induction l as [|x l IH]; [done|]. simpl sort_by_severity. rewrite IH.
  rewrite !filter_has_rank_cons.
  pose proof (severity_rank_bound x) as Hb.
  pose proof (Forall_filter_has_rank 0 l) as F0.
  pose proof (Forall_filter_has_rank 1 l) as F1.
  pose proof (Forall_filter_has_rank 2 l) as F2.
  pose proof (Forall_filter_has_rank 3 l) as F3.
  set (g0 := filter (λ a, has_rank 0 a) l) in *.
  set (g1 := filter (λ a, has_rank 1 a) l) in *.
  set (g2 := filter (λ a, has_rank 2 a) l) in *.
  set (g3 := filter (λ a, has_rank 3 a) l) in *.
  assert (∀ k (g rest : list Alert), Forall (λ a, severity_rank a = k) g →
            (severity_rank x ≤ k)%nat →
            match rest with [] => True
            | y :: _ => (severity_rank x ≤ severity_rank y)%nat end →
            match g ++ rest with [] => True
            | y :: _ => (severity_rank x ≤ severity_rank y)%nat end) as Hhd.
  { intros k g rest Hg Hk Hrest. destruct g as [|y g]; [done|]. simpl.
    apply Forall_cons in Hg as [-> _]. done. }
  assert (∀ k (g : list Alert), Forall (λ a, severity_rank a = k) g →
            (k < severity_rank x)%nat →
            Forall (λ y, (severity_rank y < severity_rank x)%nat) g) as Hlt.
  { intros k g Hg Hk. eapply Forall_impl; [exact Hg|]. simpl. intros; lia. }
  assert (match g3 with [] => True
          | y :: _ => (severity_rank x ≤ severity_rank y)%nat end) as H3.
  { destruct g3 as [|y g3]; [done|]. apply Forall_cons in F3 as [-> _]. done. }
  clearbody g0 g1 g2 g3.
  repeat case_decide; try lia.
  - apply (insert_alert_split x []); [constructor|].
    apply (Hhd 0%nat); [done|lia|]. apply (Hhd 1%nat); [done|lia|].
    apply (Hhd 2%nat); [done|lia|]. done.
  - apply (insert_alert_split x g0); [eapply Hlt; [done|lia]|].
    apply (Hhd 1%nat); [done|lia|]. apply (Hhd 2%nat); [done|lia|]. done.
  - rewrite (app_assoc g0 g1), (app_assoc g0 g1).
    apply insert_alert_split.
    + apply Forall_app; split; (eapply Hlt; [done|lia]).
    + apply (Hhd 2%nat); [done|lia|]. done.
  - rewrite !app_assoc. apply insert_alert_split; [|done].
    rewrite !Forall_app. repeat split; (eapply Hlt; [done|lia]).
Qed.

Lemma insert_alert_perm x l : insert_alert x l ≡ₚ x :: l.
Proof.
  induction l as [|y l IH]; [done|]. cbn [insert_alert].
  destruct (_ <? _)%nat; [|done].
  rewrite IH. apply Permutation_swap.
Qed.

Lemma sort_by_severity_perm l : sort_by_severity l ≡ₚ l.
Proof.
  induction l as [|x l IH]; [done|]. simpl.
  by rewrite insert_alert_perm, IH.
Qed.

Lemma filter_bool_ext {A} (P Q : A → bool) l :
  Forall (λ a, P a = Q a) l → filter (λ a, P a) l = filter (λ a, Q a) l.
Proof.
  induction 1 as [|x l Hx _ IH]; [done|].
  by rewrite !filter_cons_bool, Hx, IH.
Qed.

Lemma filter_bool_nil {A} (P : A → bool) l :
  Forall (λ a, P a = false) l → filter (λ a, P a) l = [].
Proof.
  induction 1 as [|x l Hx _ IH]; [done|].
  by rewrite filter_cons_bool, Hx, IH.
Qed.

(** A filter that selects within one rank sees the concatenation order. *)
Lemma filter_insert_alert (P : Alert → bool) k x l :
  Forall (λ a, P a = true → severity_rank a = k) (x :: l) →
  filter (λ a, P a) (insert_alert x l) = filter (λ a, P a) (x :: l).
Proof.
  intros [Hx Hl]%Forall_cons.
  induction Hl as [|y l Hy _ IH]; [done|]. cbn [insert_alert].
  destruct (_ <? _)%nat eqn:E; [|done].
  apply Nat.ltb_lt in E.
  rewrite (filter_cons_bool P y), IH, !filter_cons_bool.
  destruct (P x) eqn:Px, (P y) eqn:Py; try done.
  specialize (Hx eq_refl). specialize (Hy eq_refl). lia.
Qed.

Lemma filter_sort_by_severity (P : Alert → bool) k l :
  Forall (λ a, P a = true → severity_rank a = k) l →
  filter (λ a, P a) (sort_by_severity l) = filter (λ a, P a) l.
Proof.
  induction 1 as [|x l Hx Hl IH]; [done|]. simpl sort_by_severity.
  rewrite (filter_insert_alert P k).
  - by rewrite !filter_cons_bool, IH.
  - apply Forall_cons. split; [done|]. by rewrite sort_by_severity_perm.
Qed.

(** ** What each rule appends *)

Lemma steps_Forall {S} (step : S → LogRecord → S * list Alert)
  (Q : LogRecord → Alert → Prop) logs :
  (∀ st r, Forall (Q r) (step st r).2) →
  ∀ st, Forall (λ a, ∃ r, r ∈ logs ∧ Q r a) (steps step st logs).2.
Proof.
  intros Hstep. induction logs as [|r logs IH]; intros st; simpl; [done|].
  specialize (Hstep st r). destruct (step st r) as [st1 o1].
  specialize (IH st1). destruct (steps step st1 logs) as [st2 o2]; simpl in *.
  apply Forall_app; split.
  - eapply Forall_impl; [exact Hstep|]. intros a Ha. exists r. split; [left|done].
  - eapply Forall_impl; [exact IH|]. intros a (r' & ? & ?).
    exists r'. split; [by right|done].
Qed.

Lemma new_origin_step_shape st r :
  Forall (from_new_origin r) (new_origin_step st r).2.
Proof.
  unfold new_origin_step, new_origin_body.
  destruct (negb _); [done|].
  destruct (truthy (r_user r)) as [u|] eqn:Hu; [|done].
  destruct (truthy (r_origin r)) as [o|] eqn:Ho; [|done].
  destruct (dd_getitem _ _ _). destruct (decide _); [done|]. simpl.
  apply Forall_singleton. exists u, o.
  apply truthy_Some in Hu as [? _], Ho as [? _]. done.
Qed.

Lemma failed_login_step_shape t st r :
  Forall (from_failed_login r) (failed_login_step t st r).2.
Proof.
  unfold failed_login_step, failed_login_body.
  destruct (negb _); [done|].
  destruct (truthy (r_user r)) as [u|] eqn:Hu; [|done].
  destruct (dd_getitem _ _ _). destruct (decide _); [|done]. simpl.
  apply Forall_singleton. exists u, (z + 1).
  apply truthy_Some in Hu as [? _]. done.
Qed.

Lemma rule_login_from_new_origin_shape st logs :
  Forall (λ a, ∃ r, r ∈ logs ∧ from_new_origin r a)
    (rule_login_from_new_origin st logs).2.
Proof.
  rewrite rule_login_from_new_origin_steps.
  apply steps_Forall, new_origin_step_shape.
Qed.

Lemma rule_failed_login_threshold_shape t st logs :
  Forall (λ a, ∃ r, r ∈ logs ∧ from_failed_login r a)
    (rule_failed_login_threshold t st logs).2.
Proof.
  rewrite rule_failed_login_threshold_steps.
  apply steps_Forall, failed_login_step_shape.
Qed.

Section EngineFacts.

Variable fromisoformat : string → option datetime.


(** *** Rule 3 record by record *)

Lemma unusual_time_body_step oh al r :
  unusual_time_body fromisoformat oh al r
  = al ++ unusual_time_step fromisoformat oh r.
Proof.
  unfold unusual_time_step, unusual_time_body.
  destruct (negb _); [by rewrite app_nil_r|].
  destruct (truthy (r_user r)); [|by rewrite app_nil_r].
  destruct (truthy (r_timestamp r)); [|by rewrite app_nil_r].
  destruct (parse_ts _ _); [|by rewrite app_nil_r].
  destruct (_ || _); [done|by rewrite app_nil_r].
Qed.

Lemma rule_login_unusual_time_flat oh logs :
  rule_login_unusual_time fromisoformat oh logs
  = flat_map (unusual_time_step fromisoformat oh) logs.
Proof.
  unfold rule_login_unusual_time.
  enough (∀ al, fold_left (unusual_time_body fromisoformat oh) logs al
                = al ++ flat_map (unusual_time_step fromisoformat oh) logs) as H
    by apply (H []).
  induction logs as [|r logs IH]; intros al; simpl.
  - by rewrite app_nil_r.
  - by rewrite unusual_time_body_step, IH, app_assoc.
Qed.

Lemma rule_login_unusual_time_app oh l1 l2 :
  rule_login_unusual_time fromisoformat oh (l1 ++ l2)
  = rule_login_unusual_time fromisoformat oh l1
    ++ rule_login_unusual_time fromisoformat oh l2.
Proof. rewrite !rule_login_unusual_time_flat. apply flat_map_app. Qed.

Lemma unusual_time_step_shape oh r :
  Forall (from_unusual_time r) (unusual_time_step fromisoformat oh r).
Proof.
  unfold unusual_time_step, unusual_time_body.
  destruct (negb _); [done|].
  destruct (truthy (r_user r)) as [u|] eqn:Hu; [|done].
  destruct (truthy (r_timestamp r)); [|done].
  destruct (parse_ts _ _) as [ts|]; [|done].
  destruct (_ || _); [|done]. simpl.
  apply Forall_singleton. exists u, (dt_hour ts).
  apply truthy_Some in Hu as [? _]. done.
Qed.

Lemma rule_login_unusual_time_shape oh logs :
  Forall (λ a, ∃ r, r ∈ logs ∧ from_unusual_time r a)
    (rule_login_unusual_time fromisoformat oh logs).
Proof.
  rewrite rule_login_unusual_time_flat.
  induction logs as [|r logs IH]; simpl; [done|].
  apply Forall_app; split.
  - eapply Forall_impl; [apply unusual_time_step_shape|].
    intros a Ha. exists r. split; [left|done].
  - eapply Forall_impl; [exact IH|]. intros a (r' & ? & ?).
    exists r'. split; [by right|done].
Qed.

(** *** Rule 4: every alert is a [rapid_alert] *)

Lemma rapid_fold_shape w entries acc alerts :
  fold_left (rapid_user_body w) entries acc = Ok alerts →
  ∃ al0, acc = Ok al0
         ∧ (Forall (λ a, ∃ u n, a = rapid_alert u n w) al0 →
            Forall (λ a, ∃ u n, a = rapid_alert u n w) alerts).
Proof.
  revert acc. induction entries as [|[u times] entries IH]; intros acc; simpl.
  - intros ->. eauto.
  - intros H. apply IH in H as (al1 & H1 & Himp).
    destruct acc as [al0|]; [|done]. exists al0. split; [done|].
    intros H0. apply Himp. simpl in H1.
    destruct (sort_times times) as [sorted|]; [|done]. simpl in H1.
    destruct (scan_pairs w sorted) as [[]|]; simplify_eq/=; [|done].
    apply Forall_app; split; [done|]. apply Forall_singleton. eauto.
Qed.

Lemma rule_rapid_multiple_logins_shape w logs alerts :
  rule_rapid_multiple_logins fromisoformat w logs = Ok alerts →
  Forall (λ a, ∃ u n, a = rapid_alert u n w) alerts.
Proof.
  intros H. apply rapid_fold_shape in H as (al0 & [= <-] & Himp). by apply Himp.
Qed.

(** *** The aggregator unfolded *)

Lemma detect_all_unfold st logs :
  detect_all fromisoformat st logs
  = ((rule_failed_login_threshold default_threshold
        (rule_login_from_new_origin st logs).1 logs).1,
     a4 ←! rule_rapid_multiple_logins fromisoformat default_window_seconds logs;
     Ok (sort_by_severity
           ((rule_login_from_new_origin st logs).2
            ++ (rule_failed_login_threshold default_threshold
                  (rule_login_from_new_origin st logs).1 logs).2
            ++ rule_login_unusual_time fromisoformat default_outside_hours logs ++ a4))).
Proof.
  unfold detect_all.
  destruct (rule_login_from_new_origin st logs) as [st1 a1]; simpl.
  by destruct (rule_failed_login_threshold default_threshold st1 logs).
Qed.


(** *** Reasons and severities on the wire *)

Lemma from_new_origin_wire r a : from_new_origin r a → wire_ok a.
Proof. intros (u & o & -> & _). left. done. Qed.

Lemma from_failed_login_wire r a : from_failed_login r a → wire_ok a.
Proof. intros (u & n & -> & _). right; left. done. Qed.

Lemma from_unusual_time_wire r a : from_unusual_time r a → wire_ok a.
Proof. intros (u & h & -> & _). right; right; left. done. Qed.

Lemma rapid_alert_wire u n w : wire_ok (rapid_alert u n w).
Proof. right; right; right. done. Qed.

Lemma concatenation_wire st logs a4 :
  rule_rapid_multiple_logins fromisoformat default_window_seconds logs = Ok a4 →
  Forall wire_ok
    ((rule_login_from_new_origin st logs).2
     ++ (rule_failed_login_threshold default_threshold
           (rule_login_from_new_origin st logs).1 logs).2
     ++ rule_login_unusual_time fromisoformat default_outside_hours logs
     ++ a4).
Proof.
  intros H4. rewrite !Forall_app. repeat split.
  - eapply Forall_impl; [apply rule_login_from_new_origin_shape|].
    intros a (r & _ & Ha). by eapply from_new_origin_wire.
  - eapply Forall_impl; [apply rule_failed_login_threshold_shape|].
    intros a (r & _ & Ha). by eapply from_failed_login_wire.
  - eapply Forall_impl; [apply rule_login_unusual_time_shape|].
    intros a (r & _ & Ha). by eapply from_unusual_time_wire.
  - eapply Forall_impl; [by apply rule_rapid_multiple_logins_shape in H4|].
    intros a (u & n & ->). apply rapid_alert_wire.
Qed.

Lemma wire_ok_rank a :
  wire_ok a →
  has_rank 0 a = has_severity "high" a
  ∧ has_rank 1 a = has_severity "medium" a
  ∧ has_rank 2 a = has_severity "low" a
  ∧ has_rank 3 a = false.
Proof.
  unfold has_rank, has_severity, severity_rank.
  intros [[_ ->]|[[_ ->]|[[_ ->]|[_ ->]]]]; done.
Qed.

(** C8. Every alert that [detect_all] returns, from any state and for any
    batch, carries one of the four enumerated reasons, and its severity is
    the one that goes with that reason: new_origin with medium,
    failed_login_threshold with high, unusual_login_time with low,
    rapid_logins with medium. *)
Theorem detect_all_reason_severity st logs :
  Forall wire_ok (returned (detect_all fromisoformat st logs).2).
Proof.
  rewrite detect_all_unfold. simpl.
  destruct (rule_rapid_multiple_logins _ _ _) as [a4|] eqn:H4; simpl; [|done].
  rewrite sort_by_severity_perm. by apply concatenation_wire.
Qed.

(** C2. [detect_all] runs the rules in the order new-origin,
    failed-login-threshold, unusual-time, rapid-logins, concatenates their
    alerts in that order and sorts the concatenation stably by severity rank:
    the result is the high alerts of the concatenation, then its medium
    alerts, then its low alerts, each group in concatenation order.  The sort
    groups any list by rank 0, 1, 2, 3 (3: an unrecognized severity) and is a
    permutation, so nothing is dropped or merged. *)
Theorem detect_all_stable_severity_order st logs :
  let a1 := (rule_login_from_new_origin st logs).2 in
  let a2 := (rule_failed_login_threshold default_threshold
               (rule_login_from_new_origin st logs).1 logs).2 in
  let a3 := rule_login_unusual_time fromisoformat default_outside_hours logs in
  let a4 := rule_rapid_multiple_logins fromisoformat default_window_seconds
              logs in
  (detect_all fromisoformat st logs).2
  = (out4 ←! a4; Ok (sort_by_severity (a1 ++ a2 ++ a3 ++ out4)))
  ∧ (detect_all fromisoformat st logs).2
    = (out4 ←! a4;
       let cat := a1 ++ a2 ++ a3 ++ out4 in
       Ok (filter (λ a, has_severity "high" a) cat
           ++ filter (λ a, has_severity "medium" a) cat
           ++ filter (λ a, has_severity "low" a) cat))
  ∧ (∀ l, sort_by_severity l
          = filter (λ a, has_rank 0 a) l ++ filter (λ a, has_rank 1 a) l
            ++ filter (λ a, has_rank 2 a) l ++ filter (λ a, has_rank 3 a) l)
  ∧ (∀ l, sort_by_severity l ≡ₚ l).
Proof.
  intros a1 a2 a3 a4. rewrite detect_all_unfold. simpl.
  split; [done|].
  split; [|split; [apply sort_by_severity_groups|apply sort_by_severity_perm]].
  subst a4.
  destruct (rule_rapid_multiple_logins _ _ _) as [a4|] eqn:H4; simpl; [|done].
  f_equal. rewrite sort_by_severity_groups.
  pose proof (concatenation_wire st logs a4 H4) as Hw. fold a1 a2 a3 in Hw.
  rewrite (filter_bool_ext (has_rank 0) (has_severity "high")),
    (filter_bool_ext (has_rank 1) (has_severity "medium")),
    (filter_bool_ext (has_rank 2) (has_severity "low")),
    (filter_bool_nil (has_rank 3)), app_nil_r;
    try done;
    (eapply Forall_impl; [exact Hw|]; intros a Ha; apply wire_ok_rank in Ha;
     tauto).
Qed.


(** *** What a caller sees of one rule through the aggregator *)

Lemma steps_new_origin_failed st logs :
  _failed_logins (steps new_origin_step st logs).1 = _failed_logins st.
Proof.
  revert st. induction logs as [|r logs IH]; intros st; simpl; [done|].
  pose proof (new_origin_step_failed st r) as H1.
  destruct (new_origin_step st r) as [st1 o1]. specialize (IH st1).
  destruct (steps _ st1 logs). simpl in *. congruence.
Qed.

Lemma steps_failed_login_seen t st logs :
  _seen_origins (steps (failed_login_step t) st logs).1 = _seen_origins st.
Proof.
  revert st. induction logs as [|r logs IH]; intros st; simpl; [done|].
  pose proof (failed_login_step_seen t st r) as H1.
  destruct (failed_login_step t st r) as [st1 o1]. specialize (IH st1).
  destruct (steps _ st1 logs). simpl in *. congruence.
Qed.

Lemma detect_all_seen st logs u :
  seen (detect_all fromisoformat st logs).1 u
  = seen (rule_login_from_new_origin st logs).1 u.
Proof.
  rewrite detect_all_unfold. simpl. unfold seen.
  by rewrite rule_failed_login_threshold_steps, steps_failed_login_seen.
Qed.

Lemma rule_login_from_new_origin_failed st logs u :
  failed (rule_login_from_new_origin st logs).1 u = failed st u.
Proof.
  unfold failed.
  by rewrite rule_login_from_new_origin_steps, steps_new_origin_failed.
Qed.

Lemma wire_ok_reason_rank a reason :
  wire_ok a → a_reason a = reason →
  severity_rank a
  = if decide (reason = "failed_login_threshold") then 0%nat
    else if decide (reason = "unusual_login_time") then 2%nat else 1%nat.
Proof.
  unfold severity_rank.
  intros [[-> ->]|[[-> ->]|[[-> ->]|[-> ->]]]] <-; done.
Qed.

Lemma detect_all_filter_reason (P : Alert → bool) reason st logs alerts :
  (∀ a, P a = true → a_reason a = reason) →
  (detect_all fromisoformat st logs).2 = Ok alerts →
  ∃ a4,
    rule_rapid_multiple_logins fromisoformat default_window_seconds logs
    = Ok a4
    ∧ filter (λ a, P a) alerts
      = filter (λ a, P a)
          ((rule_login_from_new_origin st logs).2
           ++ (rule_failed_login_threshold default_threshold
                 (rule_login_from_new_origin st logs).1 logs).2
           ++ rule_login_unusual_time fromisoformat default_outside_hours logs
           ++ a4).
Proof.
  intros HP. rewrite detect_all_unfold. simpl.
  destruct (rule_rapid_multiple_logins _ _ _) as [a4|] eqn:H4; simpl; [|done].
  intros [= <-]. exists a4. split; [done|].
  eapply filter_sort_by_severity, Forall_impl;
    [by apply concatenation_wire|].
  intros a Ha Pa. by apply wire_ok_reason_rank; [|apply HP].
Qed.

Lemma is_failed_alert_of_reason u a :
  is_failed_alert_of u a = true → a_reason a = "failed_login_threshold".
Proof.
  unfold is_failed_alert_of. rewrite andb_true_iff, !bool_decide_eq_true.
  tauto.
Qed.


Lemma detect_all_filter_failed u st logs alerts :
  (detect_all fromisoformat st logs).2 = Ok alerts →
  filter (λ a, is_failed_alert_of u a) alerts
  = filter (λ a, is_failed_alert_of u a)
      (rule_failed_login_threshold default_threshold
         (rule_login_from_new_origin st logs).1 logs).2.
Proof.
  intros H.
  eapply detect_all_filter_reason in H as (a4 & H4 & ->);
    [|apply is_failed_alert_of_reason].
  rewrite !filter_app.
  rewrite (filter_bool_nil _ (rule_login_from_new_origin st logs).2),
    (filter_bool_nil _ (rule_login_unusual_time _ _ logs)),
    (filter_bool_nil _ a4), !app_nil_r; [done|..].
  - eapply Forall_impl; [by apply rule_rapid_multiple_logins_shape in H4|].
    by intros a (? & ? & ->).
  - eapply Forall_impl; [apply rule_login_unusual_time_shape|].
    by intros a (? & _ & ? & ? & -> & _).
  - eapply Forall_impl; [apply rule_login_from_new_origin_shape|].
    by intros a (? & _ & ? & ? & -> & _).
Qed.



(** *** Calls in sequence *)

Lemma rule_calls_steps rule step batches :
  (∀ st logs, rule st logs = steps step st logs) →
  ∀ st, (rule_calls rule st batches).1 = (steps step st (concat batches)).1
        ∧ concat (rule_calls rule st batches).2
          = (steps step st (concat batches)).2.
Proof.
  intros Hr. induction batches as [|b bs IH]; intros st; simpl; [done|].
  rewrite Hr, steps_app. destruct (steps step st b) as [st1 o1]; simpl.
  destruct (IH st1) as [IH1 IH2].
  destruct (rule_calls rule st1 bs) as [st2 outs]; simpl in *.
  by rewrite IH1, IH2.
Qed.


Lemma detect_calls_cons st b bs :
  detect_calls fromisoformat st (b :: bs)
  = ((detect_calls fromisoformat (detect_all fromisoformat st b).1 bs).1,
     (detect_all fromisoformat st b).2
     :: (detect_calls fromisoformat (detect_all fromisoformat st b).1 bs).2).
Proof.
  simpl. destruct (detect_all fromisoformat st b) as [st1 out]; simpl.
  by destruct (detect_calls fromisoformat st1 bs).
Qed.

Lemma detect_all_failed st logs u :
  u ≠ "" →
  failed (detect_all fromisoformat st logs).1 u
  = failed st u
    + Z.of_nat (length (filter (λ r, is_failed_login_of u r) logs)).
Proof.
  intros Hu. rewrite detect_all_unfold. simpl.
  rewrite rule_failed_login_threshold_steps.
  destruct (failed_steps_spec default_threshold u logs
              (rule_login_from_new_origin st logs).1 Hu) as [-> _].
  by rewrite rule_login_from_new_origin_failed.
Qed.

Lemma detect_calls_failed_alerts u batches st st' :
  u ≠ "" → failed st u = failed st' u →
  Forall is_Ok (detect_calls fromisoformat st batches).2 →
  filter (λ a, is_failed_alert_of u a)
    (alerts_of (detect_calls fromisoformat st batches).2)
  = filter (λ a, is_failed_alert_of u a)
      (steps (failed_login_step default_threshold) st' (concat batches)).2.
Proof.
  intros Hu. revert st st'.
  induction batches as [|b bs IH]; intros st st' Hst; [done|].
  rewrite detect_calls_cons. cbn [snd concat].
  intros [Hb Hbs]%Forall_cons.
  destruct (detect_all fromisoformat st b).2 as [alerts|] eqn:Hout; [|done].
  unfold alerts_of. cbn [fmap list_fmap concat returned].
  rewrite steps_app. cbn [snd]. rewrite !filter_app. f_equal.
  - rewrite (detect_all_filter_failed u st b alerts Hout).
    rewrite rule_failed_login_threshold_steps.
    destruct (failed_steps_spec default_threshold u b
                (rule_login_from_new_origin st b).1 Hu) as [_ ->].
    destruct (failed_steps_spec default_threshold u b st' Hu) as [_ ->].
    by rewrite rule_login_from_new_origin_failed, Hst.
  - apply IH; [|done]. rewrite detect_all_failed by done.
    destruct (failed_steps_spec default_threshold u b st' Hu) as [-> _].
    by rewrite Hst.
Qed.

(** Without a record of type "login" rule 4 has nothing to sort. *)
Lemma collect_login_times_no_login logs :
  Forall (λ r, type_is "login" r = false) logs →
  collect_login_times fromisoformat logs = [].
Proof.
  unfold collect_login_times. generalize (@nil (string * list datetime)).
  intros d. induction 1 as [|r logs Hr _ IH]; simpl; [done|].
  unfold collect_body at 2. rewrite Hr. simpl. apply IH.
Qed.

Lemma detect_calls_no_login st batches :
  Forall (Forall (λ r, type_is "login" r = false)) batches →
  Forall is_Ok (detect_calls fromisoformat st batches).2.
Proof.
  intros H. revert st. induction H as [|b bs Hb _ IH]; intros st; [done|].
  rewrite detect_calls_cons. cbn [snd]. apply Forall_cons. split; [|apply IH].
  rewrite detect_all_unfold. cbn [snd].
  unfold rule_rapid_multiple_logins.
  by rewrite collect_login_times_no_login.
Qed.

End EngineFacts.

(** ** The numbering of a user's failed logins *)

Lemma numbered_counts u recs c :
  a_failed_count
    <$> zip_with (failed_login_alert u) (seqZ c (Z.of_nat (length recs))) recs
  = Some <$> seqZ c (Z.of_nat (length recs)).
Proof.
  revert c. induction recs as [|r recs IH]; intros c; [done|].
  cbn [length]. rewrite Nat2Z.inj_succ, seqZ_cons by lia.
  rewrite Z.pred_succ. cbn. by rewrite IH.
Qed.

Lemma numbered_records u recs c :
  a_record
    <$> zip_with (failed_login_alert u) (seqZ c (Z.of_nat (length recs))) recs
  = Some <$> recs.
Proof.
  revert c. induction recs as [|r recs IH]; intros c; [done|].
  cbn [length]. rewrite Nat2Z.inj_succ, seqZ_cons by lia.
  rewrite Z.pred_succ. cbn. by rewrite IH.
Qed.

Lemma drop_seqZ k c n :
  drop k (seqZ c n) = seqZ (c + Z.of_nat k) (n - Z.of_nat k).
Proof.
  destruct (decide (Z.of_nat k ≤ n)) as [Hle|Hgt].
  - replace n with (Z.of_nat k + (n - Z.of_nat k)) at 1 by lia.
    rewrite seqZ_app by lia. rewrite drop_app_length'; [done|].
    rewrite length_seqZ. lia.
  - rewrite drop_ge by (rewrite length_seqZ; lia).
    by rewrite seqZ_nil by lia.
Qed.

Lemma numbered_shape u recs c :
  Forall (λ a, a_reason a = "failed_login_threshold" ∧ a_severity a = "high"
               ∧ a_user a = u)
    (zip_with (failed_login_alert u) (seqZ c (Z.of_nat (length recs))) recs).
Proof.
  apply Forall_forall. intros a Ha.
  apply elem_of_zip_with in Ha as (n & r & -> & _). done.
Qed.

(** ** Rule 4: sorting and scanning a user's timestamps *)

Lemma dt_lt_same a b :
  dt_aware a = dt_aware b → dt_lt a b = Ok (dt_instant a <? dt_instant b).
Proof. intros H. unfold dt_lt. by rewrite H, Bool.eqb_reflx. Qed.

Lemma dt_lt_mixed a b : dt_aware a ≠ dt_aware b → dt_lt a b = Raise TypeError.
Proof. intros H. unfold dt_lt. by destruct (dt_aware a), (dt_aware b). Qed.

Lemma dt_sub_same a b :
  dt_aware a = dt_aware b → dt_sub a b = Ok (dt_instant a - dt_instant b).
Proof. intros H. unfold dt_sub. by rewrite H, Bool.eqb_reflx. Qed.

Lemma comparable_cons x l :
  comparable (x :: l)
  ↔ Forall (λ y, dt_aware y = dt_aware x) l ∧ comparable l.
Proof.
  unfold comparable. rewrite Forall_forall. split.
  - intros H. split.
    + intros y Hy. apply H; [by right|left].
    + intros a b Ha Hb. apply H; by right.
  - intros [Hx Hl] a b [->|Ha]%elem_of_cons [->|Hb]%elem_of_cons; auto.
    symmetry. auto.
Qed.

Lemma comparable_perm l1 l2 : l1 ≡ₚ l2 → comparable l1 → comparable l2.
Proof.
  intros Hp H a b Ha Hb. apply H; by rewrite Hp.
Qed.

Lemma insert_time_ok x l :
  Forall (λ y, dt_aware y = dt_aware x) l →
  ∃ s, insert_time x l = Ok s ∧ s ≡ₚ x :: l
       ∧ (StronglySorted by_instant l → StronglySorted by_instant s).
Proof.
  induction 1 as [|y l Hy Hl (s & Hs & Hp & Hsorted)]; simpl.
  - exists [x]. repeat split; [done|]. repeat constructor.
  - rewrite dt_lt_same by done. simpl.
    destruct (dt_instant y <? dt_instant x) eqn:E.
    + rewrite Hs. simpl. exists (y :: s). repeat split.
      * rewrite Hp. apply Permutation_swap.
      * intros [Hsl Hyl]%StronglySorted_inv. constructor; [auto|].
        rewrite Hp. constructor; [|done]. unfold by_instant. lia.
    + exists (x :: y :: l). repeat split; [done|].
      intros Hsl. constructor; [done|].
      pose proof Hsl as [_ Hyl]%StronglySorted_inv.
      constructor; [unfold by_instant; lia|].
      eapply Forall_impl; [exact Hyl|]. unfold by_instant. intros; lia.
Qed.

Lemma sort_times_ok l :
  comparable l →
  ∃ s, sort_times l = Ok s ∧ s ≡ₚ l ∧ StronglySorted by_instant s.
Proof.
  induction l as [|x l IH]; intros Hc; simpl.
  - exists []. repeat split; [done|constructor].
  - apply comparable_cons in Hc as [Hx Hl].
    destruct (IH Hl) as (s & -> & Hp & Hs). simpl.
    destruct (insert_time_ok x s) as (s' & -> & Hp' & Hs');
      [by rewrite Hp|].
    exists s'. repeat split; [by rewrite Hp', Hp|auto].
Qed.

Lemma sort_times_raise l : ¬ comparable l → sort_times l = Raise TypeError.
Proof.
  induction l as [|x l IH]; intros Hc; simpl.
  - destruct Hc. by intros a b Ha%elem_of_nil.
  - destruct (decide (comparable l)) as [Hl|Hl]; [|by rewrite IH].
    destruct (sort_times_ok l Hl) as (s & -> & Hp & _). simpl.
    destruct (decide (Forall (λ y, dt_aware y = dt_aware x) l)) as [Hx|Hx];
      [destruct Hc; by apply comparable_cons|].
    apply not_Forall_Exists in Hx; [|apply _].
    rewrite <- Hp in Hx.
    apply (comparable_perm l s) in Hl; [|done].
    destruct s as [|z s]; [by apply Exists_nil in Hx|]. simpl.
    rewrite dt_lt_mixed; [done|].
    apply Exists_exists in Hx as (y & Hy & Hne). simpl in Hne.
    intros Hz. apply Hne. rewrite <- Hz. apply Hl; [done|left].
Qed.

Lemma scan_pairs_ok w s :
  comparable s → scan_pairs w s = Ok (close_neighbours w s).
Proof.
  induction s as [|a [|b s] IH]; intros Hc; [done..|].
  cbn [scan_pairs close_neighbours].
  pose proof Hc as [Ha Hs]%comparable_cons.
  apply Forall_cons in Ha as [Hab _]. rewrite dt_sub_same by done.
  simpl bind. fold (close w a b). destruct (close w a b); [done|].
  by apply IH.
Qed.

Lemma close_pair_spec w l :
  close_pair w l = true ↔ ∃ a b, a ∈ l ∧ b ∈ l ∧ close w a b = true.
Proof.
  unfold close_pair. rewrite existsb_exists. split.
  - intros (a & Ha & (b & Hb & Hab)%existsb_exists).
    exists a, b. by rewrite <- !list_elem_of_In in *.
  - intros (a & b & Ha & Hb & Hab). exists a.
    rewrite existsb_exists, <- list_elem_of_In.
    split; [done|]. exists b. by rewrite <- list_elem_of_In.
Qed.

Lemma close_pair_perm w l1 l2 :
  l1 ≡ₚ l2 → close_pair w l1 = close_pair w l2.
Proof.
  intros Hp. apply eq_true_iff_eq. rewrite !close_pair_spec.
  by setoid_rewrite Hp.
Qed.

Lemma close_spec w a b :
  close w a b = true
  ↔ 0 < dt_instant b - dt_instant a < w * 1000000.
Proof. unfold close. rewrite andb_true_iff, !Z.ltb_lt. done. Qed.

(** On a sorted list a close pair shows between two neighbours. *)
Lemma close_neighbours_sorted w s :
  StronglySorted by_instant s → close_neighbours w s = close_pair w s.
Proof.
  intros Hs. apply eq_true_iff_eq. rewrite close_pair_spec. split.
  - clear Hs. induction s as [|a [|b s] IH]; [done..|].
    cbn [close_neighbours]. rewrite orb_true_iff. intros [H|H].
    + exists a, b. split; [left|]. split; [right; left|done].
    + destruct (IH H) as (a' & b' & ? & ? & ?).
      exists a', b'. split; [by right|]. split; [by right|done].
  - induction Hs as [|a s Hs IH Ha]; intros (x & y & Hx & Hy & Hxy).
    { by apply elem_of_nil in Hx. }
    apply close_spec in Hxy.
    destruct s as [|b s].
    { apply list_elem_of_singleton in Hx, Hy. subst. lia. }
    cbn [close_neighbours]. rewrite orb_true_iff.
    pose proof Ha as [Hab Has]%Forall_cons. unfold by_instant in Hab.
    rewrite Forall_forall in Ha. unfold by_instant in Ha.
    destruct (close w a b) eqn:Hclose; [by left|right].
    apply IH.
    assert (¬ 0 < dt_instant b - dt_instant a < w * 1000000) as Hn
      by (rewrite <- close_spec; congruence).
    apply elem_of_cons in Hx as [->|Hx], Hy as [->|Hy].
    + lia.
    + (* the pair starts at the head: it also starts at its neighbour *)
      exists b, y. split; [left|]. split; [done|].
      apply close_spec. pose proof (Ha y Hy).
      apply StronglySorted_inv in Hs as [_ Hb].
      rewrite Forall_forall in Hb. unfold by_instant in Hb.
      apply elem_of_cons in Hy as [->|Hy]; [lia|].
      specialize (Hb y Hy). lia.
    + specialize (Ha x Hx). lia.
    + exists x, y. by rewrite close_spec.
Qed.

Lemma rapid_user_step_ok w u times :
  comparable times →
  rapid_user_step w (u, times)
  = Ok (if close_pair w times then [rapid_alert u (length times) w] else []).
Proof.
  intros Hc. unfold rapid_user_step, rapid_user_body. simpl.
  destruct (sort_times_ok times Hc) as (s & -> & Hp & Hs). simpl.
  rewrite scan_pairs_ok by by eapply comparable_perm.
  simpl. rewrite close_neighbours_sorted, (close_pair_perm w s times) by done.
  by rewrite Hp.
Qed.

Lemma rapid_user_step_raise w u times :
  ¬ comparable times → rapid_user_step w (u, times) = Raise TypeError.
Proof.
  intros Hc. unfold rapid_user_step, rapid_user_body. simpl.
  by rewrite sort_times_raise.
Qed.

Lemma rapid_fold_entries w entries acc :
  fold_left (rapid_user_body w) entries acc
  = (alerts ←! acc; outs ←! rapid_entries w entries; Ok (alerts ++ outs)).
Proof.
  revert acc. induction entries as [|[u times] es IH]; intros acc.
  - destruct acc; simpl; [by rewrite app_nil_r|done].
  - cbn [fold_left rapid_entries]. rewrite IH.
    unfold rapid_user_step, rapid_user_body.
    destruct acc as [al|]; simpl; [|done].
    destruct (sort_times times) as [s|]; simpl; [|done].
    destruct (scan_pairs w s) as [hit|]; simpl; [|done].
    destruct (rapid_entries w es); simpl; [|done].
    destruct hit; simpl; [|done]. by rewrite <- app_assoc.
Qed.

(** ** Rule 4: the local dict and its entries *)

Lemma dd_append_times d u ts u' :
  dd_times (dd_append d u ts) u'
  = if decide (u' = u) then dd_times d u ++ [ts] else dd_times d u'.
Proof.
  induction d as [|[k v] d IH]; simpl.
  - destruct (decide (u = u')), (decide (u' = u)); congruence.
  - destruct (decide (k = u)) as [->|Hk]; simpl.
    + destruct (decide (u = u')) as [<-|]; [by rewrite decide_True|].
      by rewrite decide_False by done.
    + destruct (decide (k = u')) as [->|]; [by rewrite decide_False|].
      apply IH.
Qed.

Lemma dd_append_keys d u ts :
  (dd_append d u ts).*1 = if decide (u ∈ d.*1) then d.*1 else d.*1 ++ [u].
Proof.
  induction d as [|[k v] d IH]; cbn [dd_append fmap list_fmap fst].
  - by destruct (decide (u ∈ [])) as [?%elem_of_nil|].
  - destruct (decide (k = u)) as [->|Hk]; cbn [fmap list_fmap fst].
    + rewrite decide_True; [done|left].
    + rewrite IH. destruct (decide (u ∈ d.*1)) as [Hin|Hin].
      * rewrite decide_True; [done|by right].
      * rewrite decide_False; [done|].
        intros [?|?]%elem_of_cons; congruence.
Qed.

Lemma dd_append_NoDup d u ts : NoDup d.*1 → NoDup (dd_append d u ts).*1.
Proof.
  intros Hd. rewrite dd_append_keys. destruct (decide _); [done|].
  apply NoDup_app. split; [done|]. split; [|apply NoDup_singleton].
  intros x Hx ->%list_elem_of_singleton. done.
Qed.

Lemma dd_times_missing d u : u ∉ d.*1 → dd_times d u = [].
Proof.
  induction d as [|[k v] d IH]; simpl; [done|].
  intros Hnot. rewrite not_elem_of_cons in Hnot. destruct Hnot as [? ?].
  rewrite decide_False by done. auto.
Qed.

Lemma dd_times_elem d u times :
  NoDup d.*1 → (u, times) ∈ d → dd_times d u = times.
Proof.
  induction d as [|[k v] d IH]; simpl; [by intros _ ?%elem_of_nil|].
  intros [Hk Hd]%NoDup_cons [[= -> ->]|Hin]%elem_of_cons.
  - by rewrite decide_True.
  - rewrite decide_False; [auto|]. intros ->. apply Hk.
    apply list_elem_of_fmap. by exists (u, times).
Qed.

Lemma dd_times_present d u :
  dd_times d u ≠ [] → (u, dd_times d u) ∈ d.
Proof.
  induction d as [|[k v] d IH]; simpl; [done|].
  destruct (decide (k = u)) as [->|]; [left|right; auto].
Qed.

Lemma rapid_entries_ok w entries :
  NoDup entries.*1 → Forall (λ e, comparable e.2) entries →
  ∃ alerts,
    rapid_entries w entries = Ok alerts
    ∧ ∀ u, filter (λ a, bool_decide (a_user a = u)) alerts
           = if close_pair w (dd_times entries u)
             then [rapid_alert u (length (dd_times entries u)) w]
             else [].
Proof.
  induction entries as [|[k v] es IH]; simpl.
  - intros _ _. exists []. done.
  - intros [Hk Hes]%NoDup_cons [Hv Hcs]%Forall_cons. simpl in Hv.
    destruct (IH Hes Hcs) as (outs & -> & Houts).
    rewrite rapid_user_step_ok by done. simpl.
    eexists. split; [done|]. intros u. rewrite filter_app, Houts.
    destruct (decide (k = u)) as [->|Hne].
    + rewrite dd_times_missing by done.
      change (close_pair w []) with false. rewrite app_nil_r.
      destruct (close_pair w v); [|done].
      rewrite filter_cons_True; [done|]. simpl.
      by apply bool_decide_spec.
    + assert (filter (λ a, bool_decide (a_user a = u))
                (if close_pair w v then [rapid_alert k (length v) w] else [])
              = []) as ->; [|done].
      destruct (close_pair w v); [|done].
      rewrite filter_cons_False; [done|]. simpl.
      by rewrite bool_decide_spec.
Qed.

Lemma rapid_entries_raise w entries :
  Exists (λ e, ¬ comparable e.2) entries →
  rapid_entries w entries = Raise TypeError.
Proof.
  induction entries as [|[k v] es IH]; [by intros ?%Exists_nil|].
  intros Hex. simpl.
  destruct (decide (comparable v)) as [Hv|Hv];
    [|by rewrite rapid_user_step_raise].
  rewrite rapid_user_step_ok by done. simpl.
  apply Exists_cons in Hex as [?|Hex]; [done|]. by rewrite IH.
Qed.

Section Claims.

Variable fromisoformat : string → option datetime.

(** C1. From a fresh state, whatever the batches and however the records are
    split over calls: number the failed_login records of a user 1..N in
    submission order; the failed_login_threshold alerts for that user are the
    alerts of the records numbered 5..N, in order, each with severity high,
    its record, and failed_count equal to its number, so there are
    max(0, N - 5 + 1) of them.  This holds for the calls of the rule, and for
    the alerts returned by the calls of [detect_all] whenever these calls
    return, which they do on batches without login records. *)
Theorem failed_login_threshold_refires batches u :
  u ≠ "" →
  let recs := filter (λ r, is_failed_login_of u r) (concat batches) in
  let N := Z.of_nat (length recs) in
  let expected :=
    drop (Z.to_nat (default_threshold - 1))
      (zip_with (failed_login_alert u) (seqZ 1 N) recs) in
  filter (λ a, is_failed_alert_of u a)
    (concat (rule_calls (rule_failed_login_threshold default_threshold)
               fresh batches).2)
  = expected
  ∧ (Forall is_Ok (detect_calls fromisoformat fresh batches).2 →
     filter (λ a, is_failed_alert_of u a)
       (alerts_of (detect_calls fromisoformat fresh batches).2)
     = expected)
  ∧ (Forall (Forall (λ r, type_is "login" r = false)) batches →
     Forall is_Ok (detect_calls fromisoformat fresh batches).2)
  ∧ length expected = Z.to_nat (Z.max 0 (N - default_threshold + 1))
  ∧ a_failed_count <$> expected
    = Some <$> seqZ default_threshold (N - default_threshold + 1)
  ∧ a_record <$> expected
    = Some <$> drop (Z.to_nat (default_threshold - 1)) recs
  ∧ Forall (λ a, a_reason a = "failed_login_threshold"
                 ∧ a_severity a = "high" ∧ a_user a = u) expected.
Proof.
  intros Hu recs N expected.
  destruct (failed_steps_spec default_threshold u (concat batches) fresh Hu)
    as [_ Hspec].
  change (failed fresh u) with 0 in Hspec.
  repeat split.
  - destruct (rule_calls_steps
                (rule_failed_login_threshold default_threshold)
                (failed_login_step default_threshold) batches
                (rule_failed_login_threshold_steps default_threshold) fresh)
      as [_ ->].
    exact Hspec.
  - intros Hok.
    rewrite (detect_calls_failed_alerts fromisoformat u batches fresh fresh)
      by done.
    exact Hspec.
  - apply detect_calls_no_login.
  - subst expected N. rewrite length_drop, length_zip_with, length_seqZ.
    unfold default_threshold. lia.
  - subst expected N. rewrite fmap_drop, numbered_counts, <- fmap_drop.
    rewrite drop_seqZ. unfold default_threshold. f_equal. f_equal; lia.
  - subst expected N. by rewrite fmap_drop, numbered_records, <- fmap_drop.
  - subst expected N. apply Forall_drop, numbered_shape.
Qed.



(** C5. For a login record with a non-empty user and a non-empty timestamp,
    wherever it stands in the batch, rule 3 contributes exactly: when the
    timestamp parses, one alert (reason unusual_login_time, severity low, the
    hour of the timestamp, the record) if hour >= start or hour < end, and
    nothing otherwise; when it does not parse, nothing.  The other records
    contribute what they contribute without it, so the rule keeps no state.
    With the default window (22, 6) the hours 23 and 3 fire and 12 does
    not.  Whatever alert the record gives reads: "user" the record's user,
    "reason" unusual_login_time, "severity" low, "hour" the hour of the
    parsed timestamp, "record" the record, and none of the fields of the
    other rules. *)
Theorem unusual_time_wraparound outside_hours logs1 r logs2 u ts :
  r_type r = Some "login" → r_user r = Some u → u ≠ "" →
  r_timestamp r = Some ts → ts ≠ "" →
  rule_login_unusual_time fromisoformat outside_hours (logs1 ++ r :: logs2)
  = rule_login_unusual_time fromisoformat outside_hours logs1
    ++ match parse_ts fromisoformat ts with
       | Some dt =>
           if decide (dt_hour dt >= outside_hours.1
                      ∨ dt_hour dt < outside_hours.2)
           then [unusual_time_alert u (dt_hour dt) r]
           else []
       | None => []
       end
    ++ rule_login_unusual_time fromisoformat outside_hours logs2
  ∧ (∀ dt, parse_ts fromisoformat ts = Some dt →
       (dt_hour dt = 23 ∨ dt_hour dt = 3 →
        rule_login_unusual_time fromisoformat default_outside_hours [r]
        = [unusual_time_alert u (dt_hour dt) r])
       ∧ (dt_hour dt = 12 →
          rule_login_unusual_time fromisoformat default_outside_hours [r]
          = []))
  ∧ (parse_ts fromisoformat ts = None →
     rule_login_unusual_time fromisoformat default_outside_hours [r] = [])
  ∧ (∀ a, a ∈ rule_login_unusual_time fromisoformat outside_hours [r] →
       ∃ dt, parse_ts fromisoformat ts = Some dt
             ∧ (dt_hour dt >= outside_hours.1 ∨ dt_hour dt < outside_hours.2)
             ∧ a_user a = u ∧ a_reason a = "unusual_login_time"
             ∧ a_severity a = "low" ∧ a_hour a = Some (dt_hour dt)
             ∧ a_record a = Some r
             ∧ a_origin a = None ∧ a_failed_count a = None
             ∧ a_logins_in_window a = None ∧ a_window_seconds a = None).
Proof.
  intros Ht Hu Hu' Hts Hts'.
  assert (∀ oh, rule_login_unusual_time fromisoformat oh [r]
                = match parse_ts fromisoformat ts with
                  | Some dt =>
                      if decide (dt_hour dt >= oh.1 ∨ dt_hour dt < oh.2)
                      then [unusual_time_alert u (dt_hour dt) r] else []
                  | None => []
                  end) as Hone.
  { intros oh. unfold rule_login_unusual_time. simpl.
    unfold unusual_time_body.
    rewrite (proj2 (type_is_true "login" r) Ht). simpl.
    rewrite (proj2 (truthy_Some (r_user r) u)) by done.
    rewrite (proj2 (truthy_Some (r_timestamp r) ts)) by done.
    destruct (parse_ts fromisoformat ts) as [dt|]; [|done].
    destruct (decide _) as [Hd|Hd].
    - assert ((dt_hour dt >=? oh.1) || (dt_hour dt <? oh.2) = true) as ->;
        [|done].
      apply orb_true_iff. destruct Hd; [left|right]; lia.
    - assert ((dt_hour dt >=? oh.1) || (dt_hour dt <? oh.2) = false) as ->;
        [|done].
      apply orb_false_iff. split; lia. }
  split; [|split; [|split]].
  - rewrite rule_login_unusual_time_app.
    change (r :: logs2) with ([r] ++ logs2).
    by rewrite rule_login_unusual_time_app, Hone.
  - intros dt Hdt. rewrite Hone, Hdt. unfold default_outside_hours. simpl.
    split.
    + intros [->| ->]; by rewrite decide_True by lia.
    + intros ->. by rewrite decide_False by lia.
  - intros Hnone. by rewrite Hone, Hnone.
  - intros a. rewrite Hone.
    destruct (parse_ts fromisoformat ts) as [dt|]; [|by intros ?%elem_of_nil].
    destruct (decide _) as [Hd|Hd]; [|by intros ?%elem_of_nil].
    intros ->%list_elem_of_singleton. exists dt.
    split; [done|]. split; [exact Hd|]. cbn. by repeat split.
Qed.

(** *** The state after a call *)

Lemma failed_login_step_out t st r :
  (failed_login_step t st r).2
  = if type_is "failed_login" r then
      match truthy (r_user r) with
      | Some u => if decide (failed st u + 1 >= t)
                  then [failed_login_alert u (failed st u + 1) r] else []
      | None => []
      end
    else [].
Proof.
  unfold failed_login_step, failed_login_body.
  destruct (type_is "failed_login" r); [|done]. simpl.
  destruct (truthy (r_user r)) as [u|]; [|done].
  pose proof (dd_getitem_value 0 (_failed_logins st) u) as Hv.
  destruct (dd_getitem _ _ _) as [d c]; simpl in Hv. subst c.
  fold (failed st u). by destruct (decide _).
Qed.

Lemma failed_login_step_failed t st r u :
  failed (failed_login_step t st r).1 u
  = failed st u + (if counted_for u r then 1 else 0).
Proof.
  unfold failed_login_step, failed_login_body, counted_for.
  destruct (type_is "failed_login" r); [|simpl; lia]. simpl.
  destruct (truthy (r_user r)) as [u'|]; [|simpl; lia].
  pose proof (dd_getitem_value 0 (_failed_logins st) u') as Hv.
  pose proof (dd_getitem_lookup 0 (_failed_logins st) u' u) as Hl.
  destruct (dd_getitem _ _ _) as [d c]; simpl in Hv, Hl. subst c.
  assert (∀ st', _failed_logins st' = <[u' := failed st u' + 1]> d →
                 failed st' u
                 = failed st u
                   + (if bool_decide (Some u' = Some u) then 1 else 0)) as Hf.
  { intros st' E. unfold failed at 1. rewrite E.
    destruct (decide (u' = u)) as [->|Hne].
    - by rewrite lookup_insert_eq, bool_decide_eq_true_2.
    - rewrite lookup_insert_ne, bool_decide_eq_false_2 by congruence.
      unfold failed. rewrite Hl. lia. }
  fold (failed st u'). by destruct (decide _); apply Hf.
Qed.

Lemma new_origin_step_out st r :
  (new_origin_step st r).2
  = if type_is "login" r then
      match truthy (r_user r), truthy (r_origin r) with
      | Some u, Some o =>
          if decide (o ∈ seen st u) then [] else [new_origin_alert u o r]
      | _, _ => []
      end
    else [].
Proof.
  destruct (type_is "login" r) eqn:Ht;
    [|by rewrite new_origin_step_miss by auto].
  destruct (truthy (r_user r)) as [u|] eqn:Hu;
    [|by rewrite new_origin_step_miss by auto].
  destruct (truthy (r_origin r)) as [o|] eqn:Ho;
    [|by rewrite new_origin_step_miss by auto].
  by destruct (new_origin_step_hit st r u o Ht Hu Ho) as [_ ->].
Qed.

Lemma new_origin_step_seen st r u o :
  o ∈ seen (new_origin_step st r).1 u
  ↔ o ∈ seen st u ∨ adds_origin u o r = true.
Proof.
  unfold adds_origin. rewrite !andb_true_iff, !bool_decide_eq_true.
  destruct (type_is "login" r) eqn:Ht;
    [|rewrite new_origin_step_miss by auto; naive_solver].
  destruct (truthy (r_user r)) as [u'|] eqn:Hu;
    [|rewrite new_origin_step_miss by auto; naive_solver].
  destruct (truthy (r_origin r)) as [o'|] eqn:Ho;
    [|rewrite new_origin_step_miss by auto; naive_solver].
  destruct (new_origin_step_hit st r u' o' Ht Hu Ho) as [-> _].
  destruct (decide (u = u')) as [->|]; [|naive_solver].
  rewrite elem_of_union, elem_of_singleton. naive_solver.
Qed.

Lemma steps_new_origin_seen u o logs st :
  o ∈ seen (steps new_origin_step st logs).1 u
  ↔ o ∈ seen st u ∨ existsb (adds_origin u o) logs = true.
Proof.
  revert st. induction logs as [|r logs IH]; intros st; simpl;
    [naive_solver|].
  pose proof (new_origin_step_seen st r u o) as H1.
  destruct (new_origin_step st r) as [st1 o1]. specialize (IH st1).
  destruct (steps _ st1 logs). simpl in *.
  rewrite IH, H1, orb_true_iff. tauto.
Qed.

Lemma steps_failed_login_failed t u logs st :
  failed (steps (failed_login_step t) st logs).1 u
  = failed st u + Z.of_nat (length (filter (λ r, counted_for u r) logs)).
Proof.
  revert st. induction logs as [|r logs IH]; intros st; simpl; [lia|].
  pose proof (failed_login_step_failed t st r u) as H1.
  destruct (failed_login_step t st r) as [st1 o1]. specialize (IH st1).
  destruct (steps _ st1 logs). simpl in *.
  rewrite IH, H1, filter_cons_bool. destruct (counted_for u r); simpl; lia.
Qed.

Lemma detect_all_state st logs u :
  (∀ o, o ∈ seen (detect_all fromisoformat st logs).1 u
        ↔ o ∈ seen st u ∨ existsb (adds_origin u o) logs = true)
  ∧ failed (detect_all fromisoformat st logs).1 u
    = failed st u + Z.of_nat (length (filter (λ r, counted_for u r) logs)).
Proof.
  split.
  - intros o. rewrite detect_all_seen, rule_login_from_new_origin_steps.
    apply steps_new_origin_seen.
  - rewrite detect_all_unfold. cbn [fst].
    rewrite rule_failed_login_threshold_steps, steps_failed_login_failed.
    by rewrite rule_login_from_new_origin_failed.
Qed.

(** C9. Over any sequence of [detect_all] calls, returning or raising, and
    for every user: the origins seen afterwards are those seen before
    together with the origins of the login records that carry the user and
    an origin, so none is removed; the failed-login counter afterwards is the
    counter before plus the number of failed_login records that carry the
    user, over all the batches, so it never decreases and is never reset
    between calls. *)
Theorem detection_state_monotone st batches u :
  let st' := (detect_calls fromisoformat st batches).1 in
  (∀ o, o ∈ seen st' u
        ↔ o ∈ seen st u
          ∨ existsb (adds_origin u o) (concat batches) = true)
  ∧ seen st u ⊆ seen st' u
  ∧ failed st' u
    = failed st u
      + Z.of_nat (length (filter (λ r, counted_for u r) (concat batches)))
  ∧ failed st u ≤ failed st' u.
Proof.
  cbn zeta.
  assert ((∀ o, o ∈ seen (detect_calls fromisoformat st batches).1 u
                ↔ o ∈ seen st u
                  ∨ existsb (adds_origin u o) (concat batches) = true)
          ∧ failed (detect_calls fromisoformat st batches).1 u
            = failed st u
              + Z.of_nat (length (filter (λ r, counted_for u r)
                                    (concat batches)))) as [Hs Hf].
  { revert st. induction batches as [|b bs IH]; intros st.
    - simpl. split; [naive_solver|lia].
    - rewrite detect_calls_cons. cbn [fst concat].
      destruct (IH (detect_all fromisoformat st b).1) as [IHs IHf].
      destruct (detect_all_state st b u) as [Hs Hf]. split.
      + intros o. rewrite IHs, Hs, existsb_app, orb_true_iff. tauto.
      + rewrite IHf, Hf, filter_app, length_app. lia. }
  repeat split; try apply Hs; try done.
  - intros o Ho. apply Hs. by left.
  - lia.
Qed.

(** *** Two runs from indistinguishable states *)

Lemma new_origin_step_equiv st1 st2 r :
  state_equiv st1 st2 →
  (new_origin_step st1 r).2 = (new_origin_step st2 r).2
  ∧ state_equiv (new_origin_step st1 r).1 (new_origin_step st2 r).1.
Proof.
  intros He. split.
  - rewrite !new_origin_step_out.
    destruct (type_is "login" r); [|done].
    destruct (truthy (r_user r)) as [u|]; [|done].
    destruct (truthy (r_origin r)) as [o|]; [|done].
    by rewrite (proj1 (He u)).
  - intros u. split.
    + apply set_eq. intros o. rewrite !new_origin_step_seen.
      by rewrite (proj1 (He u)).
    + unfold failed. rewrite !new_origin_step_failed. apply He.
Qed.

Lemma failed_login_step_equiv t st1 st2 r :
  state_equiv st1 st2 →
  (failed_login_step t st1 r).2 = (failed_login_step t st2 r).2
  ∧ state_equiv (failed_login_step t st1 r).1 (failed_login_step t st2 r).1.
Proof.
  intros He. split.
  - rewrite !failed_login_step_out.
    destruct (type_is "failed_login" r); [|done].
    destruct (truthy (r_user r)) as [u|]; [|done].
    by rewrite (proj2 (He u)).
  - intros u. split.
    + unfold seen. rewrite !failed_login_step_seen. apply He.
    + rewrite !failed_login_step_failed. by rewrite (proj2 (He u)).
Qed.

Lemma steps_equiv step logs :
  (∀ st1 st2 r, state_equiv st1 st2 →
     (step st1 r).2 = (step st2 r).2
     ∧ state_equiv (step st1 r).1 (step st2 r).1) →
  ∀ st1 st2, state_equiv st1 st2 →
    (steps step st1 logs).2 = (steps step st2 logs).2
    ∧ state_equiv (steps step st1 logs).1 (steps step st2 logs).1.
Proof.
  intros Hstep. induction logs as [|r logs IH]; intros st1 st2 He; [done|].
  simpl. destruct (Hstep st1 st2 r He) as [Ho Hs].
  destruct (step st1 r) as [st1' o1], (step st2 r) as [st2' o2].
  simpl in Ho, Hs. destruct (IH st1' st2' Hs) as [IHo IHs].
  destruct (steps step st1' logs), (steps step st2' logs). simpl in *.
  by subst.
Qed.

Lemma detect_all_equiv st1 st2 logs :
  state_equiv st1 st2 →
  (detect_all fromisoformat st1 logs).2 = (detect_all fromisoformat st2 logs).2
  ∧ state_equiv (detect_all fromisoformat st1 logs).1
      (detect_all fromisoformat st2 logs).1.
Proof.
  intros He. rewrite !detect_all_unfold. cbn [fst snd].
  rewrite !rule_login_from_new_origin_steps,
    !rule_failed_login_threshold_steps.
  destruct (steps_equiv new_origin_step logs new_origin_step_equiv
              st1 st2 He) as [H1 He1].
  destruct (steps_equiv (failed_login_step default_threshold) logs
              (failed_login_step_equiv default_threshold) _ _ He1)
    as [H2 He2].
  by rewrite H1, H2.
Qed.

(** C10. Two runs of [detect_all] calls on the same batches, from states
    that hold the same seen-origin set and the same failed-login counter for
    every user, give the same outcome call by call (the same alerts in the
    same order, or the same exception) and end in states that again hold the
    same sets and counters; the engine is a function of the batches and of
    what the prior state holds for each user. *)
Theorem detect_all_deterministic st1 st2 batches :
  state_equiv st1 st2 →
  (detect_calls fromisoformat st1 batches).2
  = (detect_calls fromisoformat st2 batches).2
  ∧ state_equiv (detect_calls fromisoformat st1 batches).1
      (detect_calls fromisoformat st2 batches).1.
Proof.
  revert st1 st2. induction batches as [|b bs IH]; intros st1 st2 He; [done|].
  rewrite !detect_calls_cons. cbn [fst snd].
  destruct (detect_all_equiv st1 st2 b He) as [-> He1].
  destruct (IH _ _ He1) as [-> He2]. done.
Qed.

(** *** The record attached to an alert *)

Lemma detect_all_record_field st logs alerts a :
  (detect_all fromisoformat st logs).2 = Ok alerts → a ∈ alerts →
  (a_reason a = "rapid_logins" ∧ a_record a = None)
  ∨ (a_reason a ≠ "rapid_logins" ∧ ∃ r, r ∈ logs ∧ a_record a = Some r).
Proof.
  rewrite detect_all_unfold. cbn [snd].
  destruct (rule_rapid_multiple_logins _ _ _) as [a4|] eqn:H4; [|done].
  simpl. intros [= <-]. rewrite sort_by_severity_perm.
  rewrite !elem_of_app. intros [Ha|[Ha|[Ha|Ha]]].
  - pose proof (rule_login_from_new_origin_shape st logs) as Hs.
    rewrite Forall_forall in Hs.
    destruct (Hs a Ha) as (r & Hr & u & o & -> & _). right. eauto.
  - pose proof (rule_failed_login_threshold_shape default_threshold
                  (rule_login_from_new_origin st logs).1 logs) as Hs.
    rewrite Forall_forall in Hs.
    destruct (Hs a Ha) as (r & Hr & u & n & -> & _). right. eauto.
  - pose proof (rule_login_unusual_time_shape fromisoformat
                  default_outside_hours logs) as Hs.
    rewrite Forall_forall in Hs.
    destruct (Hs a Ha) as (r & Hr & u & h & -> & _). right. eauto.
  - apply rule_rapid_multiple_logins_shape in H4.
    rewrite Forall_forall in H4.
    destruct (H4 a Ha) as (u & n & ->). left. done.
Qed.

(** *** Rule 4 on the batches it can sort *)

Lemma collect_body_times d r u :
  dd_times (collect_body fromisoformat d r) u
  = dd_times d u ++ option_list (login_time fromisoformat u r).
Proof.
  unfold collect_body, login_time.
  destruct (type_is "login" r); simpl; [|by rewrite app_nil_r].
  destruct (truthy (r_user r)) as [u'|]; simpl;
    [|by rewrite app_nil_r].
  destruct (truthy (r_timestamp r)) as [ts|]; simpl;
    [|destruct (bool_decide _); by rewrite app_nil_r].
  destruct (parse_ts fromisoformat ts) as [t|]; simpl;
    [|destruct (bool_decide _); by rewrite app_nil_r].
  rewrite dd_append_times.
  destruct (decide (u = u')) as [->|Hne].
  - by rewrite bool_decide_eq_true_2.
  - rewrite bool_decide_eq_false_2 by congruence. by rewrite app_nil_r.
Qed.

Lemma collect_body_NoDup d r :
  NoDup d.*1 → NoDup (collect_body fromisoformat d r).*1.
Proof.
  intros Hd. unfold collect_body.
  destruct (negb _); [done|]. destruct (truthy (r_user r)); [|done].
  destruct (truthy (r_timestamp r)); [|done].
  destruct (parse_ts _ _); [|done]. by apply dd_append_NoDup.
Qed.

Lemma collect_login_times_spec logs :
  NoDup (collect_login_times fromisoformat logs).*1
  ∧ ∀ u, dd_times (collect_login_times fromisoformat logs) u
         = login_times fromisoformat u logs.
Proof.
  unfold collect_login_times.
  enough (∀ d, NoDup d.*1 →
            NoDup (fold_left (collect_body fromisoformat) logs d).*1
            ∧ ∀ u, dd_times (fold_left (collect_body fromisoformat) logs d) u
                   = dd_times d u ++ login_times fromisoformat u logs) as H
    by (apply (H []); constructor).
  induction logs as [|r logs IH]; intros d Hd; simpl.
  - split; [done|]. intros u. by rewrite app_nil_r.
  - destruct (IH _ (collect_body_NoDup d r Hd)) as [Hn Ht].
    split; [done|]. intros u. rewrite Ht, collect_body_times, <- app_assoc.
    f_equal. unfold login_times. simpl.
    by destruct (login_time fromisoformat u r).
Qed.

(** When every user's timestamps are mutually comparable the rule returns,
    and for each user it returns one alert, with the number of the user's
    timestamps, if two of them are less than the window apart and not
    simultaneous, and none otherwise. *)
Lemma rule_rapid_multiple_logins_comparable w logs :
  (∀ u, comparable (login_times fromisoformat u logs)) →
  ∃ alerts,
    rule_rapid_multiple_logins fromisoformat w logs = Ok alerts
    ∧ ∀ u, filter (λ a, bool_decide (a_user a = u)) alerts
           = if close_pair w (login_times fromisoformat u logs)
             then [rapid_alert u
                     (length (login_times fromisoformat u logs)) w]
             else [].
Proof.
  intros Hc. unfold rule_rapid_multiple_logins.
  rewrite rapid_fold_entries. simpl.
  destruct (collect_login_times_spec logs) as [Hn Ht].
  destruct (rapid_entries_ok w (collect_login_times fromisoformat logs) Hn)
    as (alerts & -> & Ha).
  - apply Forall_forall. intros [u times] Hin. simpl.
    rewrite <- (dd_times_elem _ u times Hn Hin), Ht. apply Hc.
  - exists alerts. split; [done|]. intros u. by rewrite Ha, Ht.
Qed.

(** When some user has both a naive and an aware timestamp the rule raises. *)
Lemma rule_rapid_multiple_logins_mixed w logs u :
  ¬ comparable (login_times fromisoformat u logs) →
  rule_rapid_multiple_logins fromisoformat w logs = Raise TypeError.
Proof.
  intros Hc. unfold rule_rapid_multiple_logins.
  rewrite rapid_fold_entries. simpl.
  destruct (collect_login_times_spec logs) as [Hn Ht].
  rewrite rapid_entries_raise; [done|].
  apply Exists_exists. exists (u, login_times fromisoformat u logs).
  split; [|done]. rewrite <- Ht. apply dd_times_present. rewrite Ht.
  intros Hnil. apply Hc. rewrite Hnil. by intros a b ?%elem_of_nil.
Qed.

(** [detect_all] returns exactly on those batches. *)
Lemma detect_all_returns_iff st logs :
  is_Ok (detect_all fromisoformat st logs).2
  ↔ ∀ u, comparable (login_times fromisoformat u logs).
Proof.
  rewrite detect_all_unfold. cbn [snd]. split.
  - intros Hok u.
    destruct (decide (comparable (login_times fromisoformat u logs)))
      as [|Hn]; [done|].
    by rewrite (rule_rapid_multiple_logins_mixed _ logs u Hn) in Hok.
  - intros Hc.
    by destruct (rule_rapid_multiple_logins_comparable
                   default_window_seconds logs Hc) as (alerts & -> & _).
Qed.

End Claims.

(** A call with four failed logins of bob among other records, then a call
    with two more: the fifth and the sixth fire. *)
Lemma failed_login_threshold_refires_witness :
  "bob" ≠ ""
  ∧ filter (λ a, is_failed_alert_of "bob" a)
      (alerts_of
         (detect_calls fromisoformat_basic fresh
            [ [failed_login_of "bob" "10.0.0.1"; failed_login_of "eve" "10.0.0.9";
               failed_login_of "bob" "10.0.0.2"; failed_login_of "bob" "10.0.0.3";
               failed_login_of "bob" "10.0.0.4"];
              [failed_login_of "bob" "10.0.0.5";
               failed_login_of "bob" "10.0.0.6"] ]).2)
    = [failed_login_alert "bob" 5 (failed_login_of "bob" "10.0.0.5");
       failed_login_alert "bob" 6 (failed_login_of "bob" "10.0.0.6")].
Proof.
  split; [done|].
  pose proof (failed_login_threshold_refires fromisoformat_basic
    [ [failed_login_of "bob" "10.0.0.1"; failed_login_of "eve" "10.0.0.9";
       failed_login_of "bob" "10.0.0.2"; failed_login_of "bob" "10.0.0.3";
       failed_login_of "bob" "10.0.0.4"];
      [failed_login_of "bob" "10.0.0.5";
       failed_login_of "bob" "10.0.0.6"] ] "bob" ltac:(done))
    as (_ & Hcalls & Hok & _).
  rewrite Hcalls; [reflexivity|]. apply Hok. repeat constructor.
Defined.


(** Four logins of one user under the default window: hour 23 and hour 3
    fire, hour 12 and an unparsable timestamp do not. *)
Lemma unusual_time_wraparound_witness :
  r_type (login_at "alice" "2024-01-01T23:15:00Z") = Some "login"
  ∧ r_user (login_at "alice" "2024-01-01T23:15:00Z") = Some "alice"
  ∧ "alice" ≠ ""
  ∧ r_timestamp (login_at "alice" "2024-01-01T23:15:00Z")
    = Some "2024-01-01T23:15:00Z"
  ∧ "2024-01-01T23:15:00Z" ≠ ""
  ∧ rule_login_unusual_time fromisoformat_basic default_outside_hours
      ([login_at "alice" "2024-01-01T12:00:00Z"]
       ++ login_at "alice" "2024-01-01T23:15:00Z"
          :: [login_at "alice" "2024-01-02T03:30:00"; login_at "alice" "soon"])
    = [ {| a_user := "alice"; a_reason := "unusual_login_time";
           a_severity := "low"; a_origin := None; a_failed_count := None;
           a_hour := Some 23; a_logins_in_window := None;
           a_window_seconds := None;
           a_record := Some (login_at "alice" "2024-01-01T23:15:00Z") |};
        {| a_user := "alice"; a_reason := "unusual_login_time";
           a_severity := "low"; a_origin := None; a_failed_count := None;
           a_hour := Some 3; a_logins_in_window := None;
           a_window_seconds := None;
           a_record := Some (login_at "alice" "2024-01-02T03:30:00") |} ].
Proof.
  repeat (split; [done|]).
  rewrite (proj1 (unusual_time_wraparound fromisoformat_basic
                    default_outside_hours
                    [login_at "alice" "2024-01-01T12:00:00Z"]
                    (login_at "alice" "2024-01-01T23:15:00Z")
                    [login_at "alice" "2024-01-02T03:30:00";
                     login_at "alice" "soon"]
                    "alice" "2024-01-01T23:15:00Z"
                    eq_refl eq_refl ltac:(done) eq_refl ltac:(done))).
  reflexivity.
Defined.

(** A fresh state against one where "bob" is bound to the default values:
    both read the same, and the same batch gives the same alerts. *)
Lemma detect_all_deterministic_witness :
  state_equiv fresh (mkState {["bob" := ∅]} {["bob" := 0]})
  ∧ (detect_calls fromisoformat_basic fresh
       [replicate 5 (failed_login_of "bob" "10.0.0.1")]).2
    = (detect_calls fromisoformat_basic
         (mkState {["bob" := ∅]} {["bob" := 0]})
         [replicate 5 (failed_login_of "bob" "10.0.0.1")]).2.
Proof.
  assert (state_equiv fresh (mkState {["bob" := ∅]} {["bob" := 0]})) as He.
  { intros u. unfold seen, failed; simpl.
    destruct (decide (u = "bob")) as [->|Hne].
    - by rewrite !lookup_empty, !lookup_singleton_eq.
    - by rewrite !lookup_empty, !lookup_singleton_ne. }
  split; [exact He|].
  apply (detect_all_deterministic fromisoformat_basic _ _ _ He).
Defined.

(** ** The code at the inputs where it departs from the specification *)

(** C6. Two logins of alice ten seconds apart: the rapid_logins alert that
    [detect_all] returns has [None] under "record".  In general an alert of
    rule 4 always carries [None], while an alert of rules 1 to 3 carries a
    record of the batch. *)
Theorem rapid_logins_alert_has_no_record :
  (detect_all fromisoformat_basic fresh
     [login_at "alice" "2024-01-01T10:00:00Z";
      login_at "alice" "2024-01-01T10:00:10Z"]).2
  = Ok [rapid_alert "alice" 2 60]
  ∧ a_record (rapid_alert "alice" 2 60) = None
  ∧ ∀ fromisoformat st logs alerts a,
      (detect_all fromisoformat st logs).2 = Ok alerts → a ∈ alerts →
      (a_reason a = "rapid_logins" ∧ a_record a = None)
      ∨ (a_reason a ≠ "rapid_logins"
         ∧ ∃ r, r ∈ logs ∧ a_record a = Some r).
Proof.
  split; [reflexivity|]. split; [reflexivity|].
  apply detect_all_record_field.
Qed.

(** C7. Two logins of one user, one timestamp without a zone and one with
    [Z], then five failed logins of bob: [times.sort()] compares a naive with
    an aware datetime and [detect_all] raises [TypeError].  No alert is
    returned, not even bob's, although bob's counter has reached 5.  In
    general [detect_all] returns exactly on the batches where no user has
    both a naive and an aware parsed login timestamp. *)
Theorem detect_all_raises_on_mixed_timestamps :
  (detect_all fromisoformat_basic fresh
     ([login_at "alice" "2024-01-01T10:00:00";
       login_at "alice" "2024-01-01T10:00:05Z"]
      ++ replicate 5 (failed_login_of "bob" "10.0.0.1"))).2
  = Raise TypeError
  ∧ failed
      (detect_all fromisoformat_basic fresh
         ([login_at "alice" "2024-01-01T10:00:00";
           login_at "alice" "2024-01-01T10:00:05Z"]
          ++ replicate 5 (failed_login_of "bob" "10.0.0.1"))).1 "bob"
    = 5
  ∧ (detect_all fromisoformat_basic fresh
       (replicate 5 (failed_login_of "bob" "10.0.0.1"))).2
    = Ok [failed_login_alert "bob" 5 (failed_login_of "bob" "10.0.0.1")]
  ∧ ∀ fromisoformat st logs,
      is_Ok (detect_all fromisoformat st logs).2
      ↔ ∀ u, comparable (login_times fromisoformat u logs).
Proof.
  split; [reflexivity|]. split; [reflexivity|]. split; [reflexivity|].
  apply detect_all_returns_iff.
Qed.

(** C4. carol logs in at T, T+10s and T+200s, which alone gives her exactly
    one rapid_logins alert counting her three timestamps; in a batch where
    alice has one timestamp without a zone and one with [Z], the rule raises
    [TypeError] when it sorts alice's timestamps and carol gets no alert.  In
    general the rule raises as soon as one user has both a naive and an aware
    timestamp; otherwise it returns, per user, one alert if two of the user's
    timestamps are less than the window apart and not simultaneous, and none
    if not. *)
Theorem rapid_logins_raises_on_mixed_timestamps :
  rule_rapid_multiple_logins fromisoformat_basic default_window_seconds
    [login_at "carol" "2024-01-01T09:00:00Z";
     login_at "carol" "2024-01-01T09:00:10Z";
     login_at "carol" "2024-01-01T09:03:20Z"]
  = Ok [rapid_alert "carol" 3 60]
  ∧ rule_rapid_multiple_logins fromisoformat_basic default_window_seconds
      [login_at "alice" "2024-01-01T10:00:00";
       login_at "alice" "2024-01-01T10:00:05Z";
       login_at "carol" "2024-01-01T09:00:00Z";
       login_at "carol" "2024-01-01T09:00:10Z";
       login_at "carol" "2024-01-01T09:03:20Z"]
    = Raise TypeError
  ∧ (∀ fromisoformat w logs u,
       ¬ comparable (login_times fromisoformat u logs) →
       rule_rapid_multiple_logins fromisoformat w logs = Raise TypeError)
  ∧ ∀ fromisoformat w logs,
      (∀ u, comparable (login_times fromisoformat u logs)) →
      ∃ alerts,
        rule_rapid_multiple_logins fromisoformat w logs = Ok alerts
        ∧ ∀ u, filter (λ a, bool_decide (a_user a = u)) alerts
               = if close_pair w (login_times fromisoformat u logs)
                 then [rapid_alert u
                         (length (login_times fromisoformat u logs)) w]
                 else [].
Proof.
  split; [reflexivity|]. split; [reflexivity|].
  split; [apply rule_rapid_multiple_logins_mixed|].
  apply rule_rapid_multiple_logins_comparable.
Qed.

(** * Further properties of the engine *)

(** ** Records no rule acts on *)

Lemma fold_left_filter_skip {A B} (body : A → B → A) (keep : B → bool) l :
  (∀ acc r, keep r = false → body acc r = acc) →
  ∀ acc, fold_left body (filter (λ r, keep r) l) acc = fold_left body l acc.
Proof.
  intros Hskip. induction l as [|r l IH]; intros acc; [done|].
  rewrite filter_cons_bool. destruct (keep r) eqn:E; simpl; [done|].
  by rewrite Hskip.
Qed.

Lemma relevant_false r :
  relevant r = false →
  (type_is "login" r = false ∧ type_is "failed_login" r = false)
  ∨ truthy (r_user r) = None.
Proof.
  unfold relevant. destruct (type_is "login" r), (type_is "failed_login" r),
    (truthy (r_user r)); simpl; auto; discriminate.
Qed.

Section Frame.

Variable fromisoformat : string → option datetime.

Lemma rules_skip_irrelevant t oh w st logs :
  rule_login_from_new_origin st (filter (λ r, relevant r) logs)
  = rule_login_from_new_origin st logs
  ∧ rule_failed_login_threshold t st (filter (λ r, relevant r) logs)
    = rule_failed_login_threshold t st logs
  ∧ rule_login_unusual_time fromisoformat oh (filter (λ r, relevant r) logs)
    = rule_login_unusual_time fromisoformat oh logs
  ∧ rule_rapid_multiple_logins fromisoformat w
      (filter (λ r, relevant r) logs)
    = rule_rapid_multiple_logins fromisoformat w logs.
Proof.
  unfold rule_login_from_new_origin, rule_failed_login_threshold,
    rule_login_unusual_time, rule_rapid_multiple_logins, collect_login_times.
  split; [|split; [|split; [|f_equal]]];
    apply (fold_left_filter_skip _ relevant).
  - intros [s al] r [[Ht _]|Hu]%relevant_false; unfold new_origin_body.
    + by rewrite Ht.
    + rewrite Hu. by destruct (negb _).
  - intros [s al] r [[_ Ht]|Hu]%relevant_false; unfold failed_login_body.
    + by rewrite Ht.
    + rewrite Hu. by destruct (negb _).
  - intros al r [[Ht _]|Hu]%relevant_false; unfold unusual_time_body.
    + by rewrite Ht.
    + rewrite Hu. by destruct (negb _).
  - intros d r [[Ht _]|Hu]%relevant_false; unfold collect_body.
    + by rewrite Ht.
    + rewrite Hu. by destruct (negb _).
Qed.

(** X1. Records whose type is neither login nor failed_login, or whose user
    is missing or empty, can be dropped from a batch without changing what
    [detect_all] returns or the state it leaves; a batch of such records
    alone returns no alert and leaves the state as it was. *)
Theorem detect_all_skips_irrelevant st logs :
  detect_all fromisoformat st (filter (λ r, relevant r) logs)
  = detect_all fromisoformat st logs
  ∧ (Forall (λ r, relevant r = false) logs →
     detect_all fromisoformat st logs = (st, Ok [])).
Proof.
  assert (detect_all fromisoformat st (filter (λ r, relevant r) logs)
          = detect_all fromisoformat st logs) as Heq.
  { rewrite !detect_all_unfold.
    destruct (rules_skip_irrelevant default_threshold default_outside_hours
                default_window_seconds st logs) as (-> & _ & -> & ->).
    destruct (rules_skip_irrelevant default_threshold default_outside_hours
                default_window_seconds
                (rule_login_from_new_origin st logs).1 logs)
      as (_ & -> & _ & _).
    done. }
  split; [done|]. intros Hall. rewrite <- Heq.
  rewrite (filter_bool_nil relevant) by done. by destruct st.
Qed.

End Frame.

(** ** Replays and the state behind the alerts *)

Lemma steps_cons {S} (step : S → LogRecord → S * list Alert) st r logs :
  steps step st (r :: logs)
  = ((steps step (step st r).1 logs).1,
     (step st r).2 ++ (steps step (step st r).1 logs).2).
Proof.
  simpl. destruct (step st r) as [st1 o1]; simpl.
  by destruct (steps step st1 logs).
Qed.

Section Replay.

Variable fromisoformat : string → option datetime.

Lemma steps_new_origin_silent logs st :
  (∀ r u o, r ∈ logs → adds_origin u o r = true → o ∈ seen st u) →
  (steps new_origin_step st logs).2 = [].
Proof.
  revert st. induction logs as [|r logs IH]; intros st Hseen; [done|].
  rewrite steps_cons. cbn [snd].
  assert ((new_origin_step st r).2 = []) as ->.
  { rewrite new_origin_step_out.
    destruct (type_is "login" r) eqn:Ht; [|done].
    destruct (truthy (r_user r)) as [u|] eqn:Hu; [|done].
    destruct (truthy (r_origin r)) as [o|] eqn:Ho; [|done].
    rewrite decide_True; [done|]. apply (Hseen r u o); [left|].
    unfold adds_origin. by rewrite Ht, Hu, Ho, !bool_decide_eq_true_2. }
  apply IH. intros r' u o Hr' Hadd.
  apply (proj2 (new_origin_step_seen fromisoformat st r u o)). left.
  apply (Hseen r' u o); [by right|done].
Qed.

(** X2. Once a batch has been submitted, whether that call returned or
    raised, a later batch made only of records of the first one produces no
    new_origin alert: the rule appends none, and none is among the alerts
    [detect_all] returns. *)
Theorem new_origin_silent_on_replay st b b' :
  b' ⊆ b →
  (rule_login_from_new_origin (detect_all fromisoformat st b).1 b').2 = []
  ∧ ∀ alerts,
      (detect_all fromisoformat (detect_all fromisoformat st b).1 b').2
      = Ok alerts →
      filter (λ a, has_reason "new_origin" a) alerts = [].
Proof.
  intros Hsub.
  assert ((rule_login_from_new_origin (detect_all fromisoformat st b).1 b').2
          = []) as H1.
  { rewrite rule_login_from_new_origin_steps.
    apply steps_new_origin_silent. intros r u o Hr Hadd.
    apply (detect_all_state fromisoformat st b u). right.
    apply existsb_exists. exists r. split; [|done].
    apply list_elem_of_In. by apply Hsub. }
  split; [done|]. intros alerts Hout.
  eapply (detect_all_filter_reason fromisoformat (has_reason "new_origin")
            "new_origin") in Hout as (a4 & H4 & ->);
    [|intros a Ha; by apply bool_decide_eq_true in Ha].
  rewrite H1. cbn [app]. rewrite !filter_app.
  rewrite (filter_bool_nil _ (rule_failed_login_threshold _ _ b').2),
    (filter_bool_nil _ (rule_login_unusual_time _ _ b')),
    (filter_bool_nil _ a4); [done|..].
  - eapply Forall_impl; [by apply rule_rapid_multiple_logins_shape in H4|].
    by intros a (? & ? & ->).
  - eapply Forall_impl; [apply rule_login_unusual_time_shape|].
    by intros a (? & _ & ? & ? & -> & _).
  - eapply Forall_impl; [apply rule_failed_login_threshold_shape|].
    by intros a (? & _ & ? & ? & -> & _).
Qed.

(** X3. From any state, a call of rule 1 appends an alert for a
    user/origin pair (both non-empty) exactly when it records the origin as
    newly seen for the user, and it appends at most one alert per pair. *)
Theorem new_origin_alert_iff_newly_seen st logs u o :
  u ≠ "" → o ≠ "" →
  ((∃ a, a ∈ (rule_login_from_new_origin st logs).2
         ∧ is_new_origin_for u o a = true)
   ↔ (o ∉ seen st u)
     ∧ o ∈ seen (rule_login_from_new_origin st logs).1 u)
  ∧ (length (filter (λ a, is_new_origin_for u o a)
               (rule_login_from_new_origin st logs).2) ≤ 1)%nat.
Proof using.
  clear fromisoformat.
  intros Hu Ho. rewrite rule_login_from_new_origin_steps.
  destruct (new_origin_steps_pair u o logs st Hu Ho) as [Hs Ha].
  assert ((∃ a, a ∈ (steps new_origin_step st logs).2
                ∧ is_new_origin_for u o a = true)
          ↔ filter (λ a, is_new_origin_for u o a)
              (steps new_origin_step st logs).2 ≠ []) as ->.
  { split.
    - intros (a & Hin & Hp) Hnil.
      assert (a ∈ filter (λ a, is_new_origin_for u o a)
                    (steps new_origin_step st logs).2) as Hf
        by (apply list_elem_of_filter; split; [by rewrite Hp|done]).
      rewrite Hnil in Hf. by apply elem_of_nil in Hf.
    - destruct (filter _ _) as [|a l] eqn:E; [done|]. intros _.
      assert (a ∈ a :: l) as Hin by left. rewrite <- E in Hin.
      apply list_elem_of_filter in Hin as [Hp Hin].
      exists a. split; [done|]. by apply Is_true_true. }
  rewrite Ha, Hs. split.
  - destruct (decide (o ∈ seen st u)) as [Hin|Hin]; [naive_solver|].
    destruct (find (is_login_from u o) logs) as [r|] eqn:Hf.
    + apply find_some in Hf as [Hr Hp]. split; [|done]. intros _.
      split; [done|]. right. apply existsb_exists. eauto.
    + split; [done|]. intros [_ [?|Hex]]; [done|].
      apply existsb_exists in Hex as (r & Hr & Hp).
      by rewrite (find_none _ _ Hf r Hr) in Hp.
  - destruct (decide _); [simpl; lia|].
    destruct (find _ _); simpl; lia.
Qed.

(** X4. For any threshold and from any state, a call of rule 2 on a batch
    holding [n] failed logins of a user whose counter stands at [c] appends
    [n] less [threshold - 1 - c] (at least none) alerts for the user: all
    [n] once the counter has reached [threshold - 1], in particular for a
    threshold of 1 or less, and none while [c + n] stays below the
    threshold. *)
Theorem failed_login_alerts_from_any_state threshold st logs u :
  u ≠ "" →
  let n := length (filter (λ r, is_failed_login_of u r) logs) in
  let fired :=
    length (filter (λ a, is_failed_alert_of u a)
              (rule_failed_login_threshold threshold st logs).2) in
  fired = (n - Z.to_nat (threshold - 1 - failed st u))%nat
  ∧ (threshold - 1 ≤ failed st u → fired = n)
  ∧ (failed st u + Z.of_nat n < threshold → fired = 0%nat).
Proof.
  intros Hu n fired.
  assert (fired = (n - Z.to_nat (threshold - 1 - failed st u))%nat) as Hf.
  { subst fired n. rewrite rule_failed_login_threshold_steps.
    destruct (failed_steps_spec threshold u logs st Hu) as [_ ->].
    rewrite length_drop, length_zip_with, length_seqZ. lia. }
  split; [done|]. rewrite Hf. split; intros; lia.
Qed.

End Replay.

(** ** Rule 4 and the order of the batch *)

Section Rapid.

Variable fromisoformat : string → option datetime.

Lemma rule_rapid_multiple_logins_returns_iff w logs :
  is_Ok (rule_rapid_multiple_logins fromisoformat w logs)
  ↔ ∀ u, comparable (login_times fromisoformat u logs).
Proof.
  split.
  - intros Hok u.
    destruct (decide (comparable (login_times fromisoformat u logs)))
      as [|Hn]; [done|].
    by rewrite (rule_rapid_multiple_logins_mixed _ w logs u Hn) in Hok.
  - intros Hc.
    by destruct (rule_rapid_multiple_logins_comparable fromisoformat
                   w logs Hc) as (alerts & -> & _).
Qed.

Lemma login_times_perm u logs logs' :
  logs ≡ₚ logs' →
  login_times fromisoformat u logs ≡ₚ login_times fromisoformat u logs'.
Proof. intros Hp. unfold login_times. by rewrite Hp. Qed.

(** X5. Rule 4 does not depend on the order of the records in the batch: on
    a reordered batch it returns or raises as on the original one, and when
    it returns, each user gets the same alert, or none, in both. *)
Theorem rapid_logins_order_independent w logs logs' :
  logs ≡ₚ logs' →
  (is_Ok (rule_rapid_multiple_logins fromisoformat w logs)
   ↔ is_Ok (rule_rapid_multiple_logins fromisoformat w logs'))
  ∧ ∀ alerts alerts',
      rule_rapid_multiple_logins fromisoformat w logs = Ok alerts →
      rule_rapid_multiple_logins fromisoformat w logs' = Ok alerts' →
      (∀ u, filter (λ a, bool_decide (a_user a = u)) alerts
            = filter (λ a, bool_decide (a_user a = u)) alerts')
      ∧ (∀ a, a ∈ alerts ↔ a ∈ alerts').
Proof.
  intros Hp.
  assert (∀ u, comparable (login_times fromisoformat u logs)
               ↔ comparable (login_times fromisoformat u logs')) as Hc.
  { intros u. split; apply comparable_perm;
      [|symmetry]; by apply login_times_perm. }
  split.
  - rewrite !rule_rapid_multiple_logins_returns_iff.
    split; intros H u; by apply Hc.
  - intros alerts alerts' H1 H2.
    assert (∀ u, comparable (login_times fromisoformat u logs)) as Hc1.
    { apply (rule_rapid_multiple_logins_returns_iff w). by rewrite H1. }
    assert (∀ u, comparable (login_times fromisoformat u logs')) as Hc2
      by (intros u; by apply Hc).
    destruct (rule_rapid_multiple_logins_comparable fromisoformat w logs Hc1)
      as (al & E1 & Ha).
    destruct (rule_rapid_multiple_logins_comparable fromisoformat w logs' Hc2)
      as (al' & E2 & Ha').
    rewrite H1 in E1. rewrite H2 in E2. simplify_eq.
    assert (∀ u, filter (λ a, bool_decide (a_user a = u)) al
                 = filter (λ a, bool_decide (a_user a = u)) al') as Hu.
    { intros u. rewrite Ha, Ha'.
      rewrite (close_pair_perm w _ _ (login_times_perm u logs logs' Hp)).
      by rewrite (Permutation_length (login_times_perm u logs logs' Hp)). }
    split; [done|]. intros a.
    assert (∀ l : list Alert,
              a ∈ l
              ↔ a ∈ filter (λ x, bool_decide (a_user x = a_user a)) l)
      as Hin.
    { intros l. rewrite list_elem_of_filter, bool_decide_spec. tauto. }
    by rewrite (Hin al), (Hin al'), Hu.
Qed.

(** X6. For a window below 2^33 seconds, where the test of the float
    [total_seconds()] against the window is the test on the microseconds,
    rule 4 returns the empty list exactly when no user has both a naive and
    an aware timestamp and no user has two timestamps that are less than the
    window apart and not simultaneous; so it is silent on a batch with at
    most one parsed login timestamp per user, and, when it returns, for any
    window of zero or less. *)
Theorem rapid_logins_silent_iff w logs :
  w < 2 ^ 33 →
  (rule_rapid_multiple_logins fromisoformat w logs = Ok []
   ↔ ∀ u, comparable (login_times fromisoformat u logs)
          ∧ close_pair w (login_times fromisoformat u logs) = false)
  ∧ ((∀ u, (length (login_times fromisoformat u logs) ≤ 1)%nat) →
     rule_rapid_multiple_logins fromisoformat w logs = Ok [])
  ∧ (w ≤ 0 →
     ∀ alerts, rule_rapid_multiple_logins fromisoformat w logs = Ok alerts →
               alerts = []).
Proof.
  intros _.
  assert (rule_rapid_multiple_logins fromisoformat w logs = Ok []
          ↔ ∀ u, comparable (login_times fromisoformat u logs)
                 ∧ close_pair w (login_times fromisoformat u logs) = false)
    as Hiff.
  { split.
    - intros H.
      assert (∀ u, comparable (login_times fromisoformat u logs)) as Hc.
      { apply (rule_rapid_multiple_logins_returns_iff w). by rewrite H. }
      intros u. split; [done|].
      destruct (rule_rapid_multiple_logins_comparable fromisoformat w logs Hc)
        as (al & E & Ha).
      rewrite H in E. injection E as <-. specialize (Ha u).
      by destruct (close_pair w _).
    - intros H.
      destruct (rule_rapid_multiple_logins_comparable fromisoformat w logs)
        as (al & -> & Ha); [intros u; apply H|].
      f_equal. destruct al as [|a al]; [done|].
      specialize (Ha (a_user a)). rewrite (proj2 (H (a_user a))) in Ha.
      rewrite filter_cons_True in Ha; [done|]. by apply bool_decide_spec. }
  split; [done|]. split.
  - intros Hlen. apply Hiff. intros u. specialize (Hlen u).
    destruct (login_times fromisoformat u logs) as [|x [|y l]] eqn:E;
      [..|simpl in Hlen; lia].
    + split; [by intros a b ?%elem_of_nil|done].
    + split.
      * intros a b ->%list_elem_of_singleton ->%list_elem_of_singleton. done.
      * apply not_true_iff_false. rewrite close_pair_spec.
        intros (a & b & ->%list_elem_of_singleton
                  & ->%list_elem_of_singleton & Hc%close_spec). lia.
  - intros Hw alerts H.
    assert (∀ u, comparable (login_times fromisoformat u logs)) as Hc.
    { apply (rule_rapid_multiple_logins_returns_iff w). by rewrite H. }
    enough (Ok alerts = Ok []) by congruence.
    rewrite <- H. apply Hiff. intros u. split; [done|].
    apply not_true_iff_false. rewrite close_pair_spec.
    intros (a & b & _ & _ & Hcl%close_spec). lia.
Qed.

End Rapid.

(** * Ingestion, response and the handlers *)

(** ** Timestamps written by the system and read by the rules *)

Lemma digit_range d :
  0 ≤ d ≤ 9 →
  d = 0 ∨ d = 1 ∨ d = 2 ∨ d = 3 ∨ d = 4 ∨ d = 5 ∨ d = 6 ∨ d = 7 ∨ d = 8
  ∨ d = 9.
Proof. lia. Qed.

Lemma digit_digit_char d : 0 ≤ d ≤ 9 → digit (digit_char d) = Some d.
Proof.
  intros H. destruct (digit_range d H) as [->|[->|[->|[->|[->|[->|[->|[->|
    [->| ->]]]]]]]]]; reflexivity.
Qed.

Lemma digit_char_not_Z d :
  0 ≤ d ≤ 9 → Ascii.eqb (digit_char d) "Z"%char = false.
Proof.
  intros H. destruct (digit_range d H) as [->|[->|[->|[->|[->|[->|[->|[->|
    [->| ->]]]]]]]]]; reflexivity.
Qed.

Lemma append_cons x (a b : string) : String x a +:+ b = String x (a +:+ b).
Proof. reflexivity. Qed.

Lemma append_nil (b : string) : "" +:+ b = b.
Proof. reflexivity. Qed.

Lemma append_assoc (a b c : string) : (a +:+ b) +:+ c = a +:+ (b +:+ c).
Proof.
  induction a as [|x a IH]; [done|]. by rewrite !append_cons, IH.
Qed.

Lemma digits_pad_mod n z acc rest :
  digits n acc (pad n z +:+ rest)
  = Some (acc * 10 ^ Z.of_nat n + z mod 10 ^ Z.of_nat n, rest).
Proof.
  revert acc. induction n as [|n IH]; intros acc.
  - simpl. rewrite Z.mod_1_r. do 2 f_equal. lia.
  - cbn [pad digits]. rewrite append_cons.
    rewrite digit_digit_char
      by (pose proof (Z.mod_pos_bound (z / 10 ^ Z.of_nat n) 10); lia).
    cbn [mbind option_bind]. rewrite IH. do 2 f_equal.
    rewrite Nat2Z.inj_succ, Z.pow_succ_r by lia.
    pose proof (Z.pow_pos_nonneg 10 (Z.of_nat n)) as Hpos.
    rewrite (Z.mul_comm 10 (10 ^ Z.of_nat n)), Z.rem_mul_r by lia. ring.
Qed.

Lemma digits_pad n z rest :
  0 ≤ z < 10 ^ Z.of_nat n → digits n 0 (pad n z +:+ rest) = Some (z, rest).
Proof.
  intros H. rewrite digits_pad_mod, Z.mod_small by done. do 2 f_equal.
Qed.

Lemma replace_Z_app a b : replace_Z (a +:+ b) = replace_Z a +:+ replace_Z b.
Proof.
  induction a as [|x a IH]; [done|]. rewrite append_cons.
  cbn [replace_Z]. rewrite IH.
  destruct (Ascii.eqb x "Z"); [by rewrite append_assoc|done].
Qed.

Lemma replace_Z_pad n z : replace_Z (pad n z) = pad n z.
Proof.
  induction n as [|n IH]; [done|]. cbn [pad replace_Z].
  rewrite digit_char_not_Z, IH; [done|].
  pose proof (Z.mod_pos_bound (z / 10 ^ Z.of_nat n) 10). lia.
Qed.

Lemma replace_Z_isoformat c : replace_Z (isoformat c) = isoformat c.
Proof.
  unfold isoformat. rewrite !replace_Z_app, !replace_Z_pad.
  destruct (c_microsecond c =? 0); [done|].
  by rewrite replace_Z_app, replace_Z_pad.
Qed.

Lemma in_range_true lo hi x : lo ≤ x ≤ hi → in_range lo hi x = true.
Proof. intros H. unfold in_range. apply andb_true_iff. lia. Qed.

Lemma expect_same c rest : expect c (String c rest) = Some rest.
Proof. unfold expect. by rewrite Ascii.eqb_refl. Qed.

Lemma days_in_month_le y m : days_in_month y m ≤ 31.
Proof.
  unfold days_in_month. destruct (m =? 2); [by destruct (is_leap y)|].
  by destruct (_ || _).
Qed.

Lemma parse_utc_stamp c :
  valid_civil c →
  parse_ts fromisoformat_basic (utc_stamp c)
  = Some (mkDT (c_hour c)
            (((((ymd2ord (c_year c) (c_month c) (c_day c) - 1) * 24
                + c_hour c) * 60 + c_minute c) * 60 + c_second c) * 1000000
             + c_microsecond c)
            (Some 0)).
Proof.
  intros (Hy & Hm & Hd & Hh & Hmi & Hs & Hus).
  pose proof (days_in_month_le (c_year c) (c_month c)) as Hdim.
  unfold parse_ts, utc_stamp.
  rewrite replace_Z_app, replace_Z_isoformat.
  change (replace_Z "Z") with "+00:00".
  unfold isoformat. rewrite !append_assoc, !append_cons, !append_nil.
  unfold fromisoformat_basic.
  repeat (rewrite digits_pad by (simpl; lia); cbn [mbind option_bind];
          rewrite ?expect_same; cbn [mbind option_bind]).
  assert (parse_fraction
            ((if c_microsecond c =? 0 then ""
              else String "." (pad 6 (c_microsecond c))) +:+ "+00:00")
          = Some (c_microsecond c, "+00:00")) as ->.
  { destruct (c_microsecond c =? 0) eqn:E.
    - apply Z.eqb_eq in E. rewrite E. reflexivity.
    - rewrite append_cons. unfold parse_fraction. simpl Ascii.eqb. cbn match.
      apply digits_pad. simpl. lia. }
  cbn [mbind option_bind].
  change (parse_offset "+00:00") with (Some (Some 0)).
  cbn [mbind option_bind].
  rewrite !in_range_true by done. done.
Qed.

(** X7. A timestamp the system writes, [utcnow().isoformat() + "Z"], is
    read back by the rules, after their replacement of "Z", as an aware
    datetime at offset 0 with the hour, and the wall-clock instant, of the
    clock reading it was written from. *)
Theorem utc_stamp_round_trip c :
  valid_civil c →
  parse_ts fromisoformat_basic (utc_stamp c)
  = Some (mkDT (c_hour c)
            (((((ymd2ord (c_year c) (c_month c) (c_day c) - 1) * 24
                + c_hour c) * 60 + c_minute c) * 60 + c_second c) * 1000000
             + c_microsecond c)
            (Some 0)).
Proof. apply parse_utc_stamp. Qed.

Lemma utc_stamp_nonempty c : utc_stamp c ≠ "".
Proof. unfold utc_stamp, isoformat. cbn [pad]. by rewrite append_cons. Qed.

Lemma login_times_clock_stamped u logs :
  Forall clock_stamped logs →
  Forall (λ a, dt_aware a = true) (login_times fromisoformat_basic u logs).
Proof.
  intros Hall. apply Forall_forall. intros a Ha.
  apply list_elem_of_omap in Ha as (r & Hr & Hlt).
  rewrite Forall_forall in Hall. destruct (Hall r Hr) as (c & Hc & Hts).
  unfold login_time in Hlt. destruct (_ && _); [|done].
  rewrite Hts in Hlt. unfold truthy in Hlt.
  rewrite decide_False in Hlt by apply utc_stamp_nonempty.
  cbn [mbind option_bind] in Hlt. rewrite parse_utc_stamp in Hlt by done.
  by injection Hlt as <-.
Qed.

Lemma stamp_clock_stamped now r :
  valid_civil now → r_timestamp r = None → clock_stamped (stamp now r).
Proof.
  intros Hv Hr. exists now. split; [done|]. unfold stamp. by rewrite Hr.
Qed.

Lemma ingest_log_memory now w logs r :
  (ingest_log now w logs r).1 = logs
  ∨ (ingest_log now w logs r).1 = logs ++ [stamp now r].
Proof.
  unfold ingest_log. destruct w as [w|]; [|by right].
  destruct (w (stamp now r)); [by left|by right].
Qed.

Lemma ingest_each_clock_stamped w requests logs :
  Forall (λ req, valid_civil req.1 ∧ r_timestamp req.2 = None) requests →
  Forall clock_stamped logs →
  Forall clock_stamped (ingest_each w requests logs).
Proof.
  intros Hreq. revert logs. unfold ingest_each.
  induction Hreq as [|[now r] reqs [Hv Hr] _ IH]; intros logs Hl; [done|].
  simpl. apply IH.
  destruct (ingest_log_memory now w logs r) as [-> | ->]; [done|].
  apply Forall_app. split; [done|].
  apply Forall_singleton. by apply stamp_clock_stamped.
Qed.

Lemma slice_from_suffix {A} (l : list A) start :
  ∃ k, slice_from l start = drop k l.
Proof. unfold slice_from. destruct (start <? 0); eauto. Qed.

(** X8. Records ingested without a timestamp, under any behaviour of the
    storage layer, are stamped from the clock; whatever part of the
    in-memory log [get_logs] then hands over, for any limit, [detect_all]
    returns on it and does not raise. *)
Theorem detect_all_returns_on_ingested w requests limit st :
  Forall (λ req, valid_civil req.1 ∧ r_timestamp req.2 = None) requests →
  Forall clock_stamped (ingest_each w requests [])
  ∧ is_Ok (detect_all fromisoformat_basic st
             (get_logs None (ingest_each w requests []) limit)).2.
Proof.
  intros Hreq.
  assert (Forall clock_stamped (ingest_each w requests [])) as Hst
    by by apply ingest_each_clock_stamped.
  split; [done|]. apply detect_all_returns_iff. intros u.
  unfold get_logs.
  destruct (slice_from_suffix (ingest_each w requests []) (- limit))
    as [k ->].
  pose proof (login_times_clock_stamped u _ (Forall_drop _ k _ Hst)) as Haw.
  rewrite Forall_forall in Haw.
  intros a b Ha Hb. by rewrite (Haw a Ha), (Haw b Hb).
Qed.


(** X9. Without a usable storage layer [get_logs(limit)] returns the last
    [limit] records of the in-memory log in ingestion order when [limit] is
    positive (all of them when there are no more than [limit]); for a limit
    of 0 it returns the whole log, not the empty list, and for a negative
    limit the log without its first [-limit] records.  A storage layer that
    raises gives the same. *)
Theorem get_logs_memory_slice logs limit :
  (0 < limit →
   get_logs None logs limit
   = drop (length logs - Z.to_nat limit) logs
   ∧ length (get_logs None logs limit) = Nat.min (Z.to_nat limit) (length logs))
  ∧ get_logs None logs 0 = logs
  ∧ (limit < 0 → get_logs None logs limit = drop (Z.to_nat (- limit)) logs)
  ∧ (∀ db, db limit = None →
           get_logs (Some db) logs limit = get_logs None logs limit).
Proof.
  unfold get_logs, slice_from. split; [|split; [|split]].
  - intros Hl. rewrite (proj2 (Z.ltb_lt _ _)) by lia.
    split; [f_equal; lia|]. rewrite length_drop. lia.
  - done.
  - intros Hl. rewrite (proj2 (Z.ltb_ge _ _)) by lia. done.
  - intros db ->. done.
Qed.


(** ** The incident log *)

Section Response.

Variable utcnow : nat → civil.

Lemma add_action_last l x cnt k action target status details :
  add_action utcnow (length l) action target status details
    (mkResponder (l ++ [x]) cnt k)
  = mkResponder
      (l ++ [record_action
               (mkAction action target status (utc_stamp (utcnow k)) details)
               x])
      cnt (S k).
Proof.
  unfold add_action. cbn [_incidents _incident_counter clock_reads].
  by rewrite alter_app_r_alt, Nat.sub_diag by lia.
Qed.

(** What one call of the playbook does to the module state. *)
Lemma auto_respond_to_alert_spec alert st :
  ∃ inc,
    auto_respond_to_alert utcnow alert st
    = (mkResponder (_incidents st ++ [inc]) (_incident_counter st + 1)
         (length (inc_actions inc) + S (clock_reads st)),
       length (_incidents st))
    ∧ inc_id inc = _incident_counter st + 1
    ∧ inc_alert_id inc = default "unknown" (d_id alert)
    ∧ inc_alert_reason inc = default "unknown" (d_reason alert)
    ∧ inc_user inc = d_user alert ∧ inc_ip inc = d_ip alert
    ∧ inc_status inc = "active"
    ∧ Forall (λ a, act_status a = SUCCESS) (inc_actions inc)
    ∧ actions_taken inc
      = if decide (default "low" (d_severity alert) = "high") then
          match truthy (d_user alert) with
          | Some u =>
              if decide (default "" (d_reason alert)
                         = "failed_login_threshold")
              then [("disable_account", u); ("alert", "ops")] else []
          | None => []
          end
          ++ match truthy (d_ip alert) with
             | Some i => [("block_ip", i); ("alert", "ops")]
             | None => []
             end
        else if decide (default "low" (d_severity alert) = "medium")
             then [("alert", "security")]
             else [("alert", "logs")].
Proof.
  destruct st as [l cnt k].
  unfold auto_respond_to_alert, create_incident, Incident_init.
  cbn [_incidents _incident_counter clock_reads].
  destruct (decide (default "low" (d_severity alert) = "high"));
    [destruct (truthy (d_user alert)) as [u|];
       [destruct (decide (default "" (d_reason alert)
                          = "failed_login_threshold"))|];
     destruct (truthy (d_ip alert)) as [i|]
    |destruct (decide (default "low" (d_severity alert) = "medium"))];
    unfold disable_account, send_alert, block_ip; cbn [fst];
    rewrite ?add_action_last.
  all: unfold record_action; cbn.
  all: lazymatch goal with
       | |- ∃ inc, (mkResponder (_ ++ [?x]) _ _, _) = _ ∧ _ => exists x
       end.
  all: split; [reflexivity|].
  all: cbn; repeat split; repeat constructor.
Qed.

Lemma respond_each_cons alert alerts st acc :
  respond_each utcnow (alert :: alerts) st acc
  = respond_each utcnow alerts (auto_respond_to_alert utcnow alert st).1
      (acc ++ option_list
                (_incidents (auto_respond_to_alert utcnow alert st).1
                 !! (auto_respond_to_alert utcnow alert st).2)).
Proof. cbn [respond_each]. by destruct (auto_respond_to_alert _ _ _). Qed.

Lemma respond_each_spec alerts st acc :
  ∃ new,
    (respond_each utcnow alerts st acc).2 = acc ++ new
    ∧ _incidents (respond_each utcnow alerts st acc).1
      = _incidents st ++ new
    ∧ _incident_counter (respond_each utcnow alerts st acc).1
      = _incident_counter st + Z.of_nat (length alerts)
    ∧ length new = length alerts
    ∧ inc_alert_reason <$> new
      = (λ a, default "unknown" (d_reason a)) <$> alerts
    ∧ Forall2 incident_of alerts new
    ∧ inc_id <$> new
      = seqZ (_incident_counter st + 1) (Z.of_nat (length alerts)).
Proof.
  revert st acc. induction alerts as [|alert alerts IH]; intros st acc.
  - exists []. cbn. rewrite !app_nil_r. repeat split; [lia|constructor].
  - rewrite respond_each_cons.
    destruct (auto_respond_to_alert_spec alert st)
      as (inc & -> & Hid & Hai & Hre & Hus & Hip & Hst & _).
    cbn [fst snd _incidents].
    rewrite list_lookup_middle by done.
    change (option_list (Some inc)) with [inc].
    destruct (IH (mkResponder (_incidents st ++ [inc])
                    (_incident_counter st + 1)
                    (length (inc_actions inc) + S (clock_reads st)))
                (acc ++ [inc]))
      as (new & H2 & H1 & Hc & Hlen & Hrs & Hof & Hids).
    cbn [_incidents _incident_counter] in *.
    exists (inc :: new). rewrite H2, H1, Hc, <- !app_assoc. cbn [app length].
    split; [done|]. split; [done|]. split; [lia|].
    split; [by rewrite Hlen|]. split; [by rewrite !fmap_cons, Hre, Hrs|].
    split; [by constructor|].
    rewrite Nat2Z.inj_succ, seqZ_cons by lia.
    rewrite fmap_cons, Hid, Hids, Z.pred_succ.
    by rewrite <- Z.add_1_r.
Qed.

(** X11. Responding to a list of alerts appends one incident per alert to
    the incident log, after the incidents already there and in the order of
    the alerts, and returns exactly these new incidents: the k-th new
    incident is the one made of the k-th alert (its alert id, reason, user
    and ip, status active) and has the id counter + k.  When the ids in the
    log were 1..counter before, they are 1..counter afterwards, with the
    counter advanced by the number of alerts. *)
Theorem respond_each_numbers_incidents alerts st :
  well_numbered st →
  well_numbered (respond_each utcnow alerts st []).1
  ∧ _incident_counter (respond_each utcnow alerts st []).1
    = _incident_counter st + Z.of_nat (length alerts)
  ∧ _incidents (respond_each utcnow alerts st []).1
    = _incidents st ++ (respond_each utcnow alerts st []).2
  ∧ length (respond_each utcnow alerts st []).2 = length alerts
  ∧ Forall2 incident_of alerts (respond_each utcnow alerts st []).2
  ∧ inc_id <$> (respond_each utcnow alerts st []).2
    = seqZ (_incident_counter st + 1) (Z.of_nat (length alerts)).
Proof.
  intros [Hc Hids]. unfold well_numbered.
  destruct (respond_each_spec alerts st [])
    as (new & -> & -> & -> & Hl & _ & Hof & Hn).
  cbn [app]. split; [split; [lia|]|done].
  rewrite fmap_app, Hids, Hn, seqZ_app by lia. do 2 f_equal. lia.
Qed.

Lemma find_by_id l i :
  NoDup (inc_id <$> l) → i ∈ l →
  find (λ x, inc_id x =? inc_id i) l = Some i.
Proof.
  induction l as [|x l IH]; [by intros _ ?%elem_of_nil|].
  rewrite fmap_cons. intros [Hx Hl]%NoDup_cons [->|Hin]%elem_of_cons; cbn.
  - by rewrite Z.eqb_refl.
  - destruct (inc_id x =? inc_id i) eqn:E; [|auto].
    apply Z.eqb_eq in E. destruct Hx. rewrite E.
    apply list_elem_of_fmap. eauto.
Qed.

(** X12. In an incident log whose ids are 1..counter, [get_incident] finds
    for the id of every logged incident that very incident, finds one for
    every id from 1 to the counter, and finds none for any other id, where
    [api_get_incident] answers 404. *)
Theorem get_incident_by_id st :
  well_numbered st →
  (∀ i, i ∈ _incidents st → get_incident (inc_id i) st = Some i)
  ∧ (∀ id, 1 ≤ id ≤ _incident_counter st →
           ∃ i, get_incident id st = Some i ∧ inc_id i = id
                ∧ api_get_incident id st = inr i)
  ∧ (∀ id, ¬ (1 ≤ id ≤ _incident_counter st) →
           get_incident id st = None
           ∧ api_get_incident id st = inl (HTTP404 "incident not found")).
Proof.
  intros [Hc Hids].
  assert (NoDup (inc_id <$> _incidents st)) as Hnd
    by (rewrite Hids; apply NoDup_seqZ).
  assert (∀ i, i ∈ _incidents st → get_incident (inc_id i) st = Some i)
    as Hget by (intros i Hi; by apply find_by_id).
  split; [done|]. split.
  - intros id Hid.
    assert (id ∈ inc_id <$> _incidents st) as Hin
      by (rewrite Hids, elem_of_seqZ; lia).
    apply list_elem_of_fmap in Hin as (i & -> & Hi).
    exists i. unfold api_get_incident. by rewrite (Hget i Hi).
  - intros id Hid.
    assert (get_incident id st = None) as Hnone.
    { unfold get_incident.
      destruct (find _ _) as [i|] eqn:E; [|done].
      apply find_some in E as [Hi E]. apply Z.eqb_eq in E.
      destruct Hid. apply list_elem_of_In in Hi.
      assert (inc_id i ∈ inc_id <$> _incidents st) as Hin
        by (apply list_elem_of_fmap; eauto).
      rewrite Hids, elem_of_seqZ in Hin. lia. }
    unfold api_get_incident. by rewrite Hnone.
Qed.

(** X13. The incident that [auto_respond_to_alert] logs for an alert records
    a disable_account action exactly when the severity is high, the reason
    is failed_login_threshold and the alert has a non-empty user; a block_ip
    action exactly when the severity is high and the alert has a non-empty
    ip; and no action at all exactly when the severity is high and neither
    holds.  Every recorded action has status success, and the incidents
    logged before are left as they were. *)
Theorem auto_respond_playbook alert st :
  let severity := default "low" (d_severity alert) in
  let reason := default "" (d_reason alert) in
  ∃ inc,
    _incidents (auto_respond_to_alert utcnow alert st).1
    = _incidents st ++ [inc]
    ∧ (auto_respond_to_alert utcnow alert st).2 = length (_incidents st)
    ∧ (∀ u, ("disable_account", u) ∈ actions_taken inc
            ↔ severity = "high" ∧ reason = "failed_login_threshold"
              ∧ truthy (d_user alert) = Some u)
    ∧ (∀ i, ("block_ip", i) ∈ actions_taken inc
            ↔ severity = "high" ∧ truthy (d_ip alert) = Some i)
    ∧ (actions_taken inc = []
       ↔ severity = "high"
         ∧ ¬ (reason = "failed_login_threshold"
              ∧ is_Some (truthy (d_user alert)))
         ∧ truthy (d_ip alert) = None)
    ∧ Forall (λ a, act_status a = SUCCESS) (inc_actions inc).
Proof.
  intros severity reason.
  destruct (auto_respond_to_alert_spec alert st)
    as (inc & -> & _ & _ & _ & _ & _ & _ & Hs & Ha).
  exists inc. cbn [fst snd _incidents]. split; [done|]. split; [done|].
  fold severity reason in Ha. rewrite Ha. clear Ha.
  split; [|split; [|split; [|done]]].
  - intros u0. destruct (decide (severity = "high")) as [Hh|Hh].
    + destruct (truthy (d_user alert)) as [u|];
        [destruct (decide (reason = "failed_login_threshold"))|];
        destruct (truthy (d_ip alert)) as [i|]; cbn;
        rewrite ?elem_of_cons, ?elem_of_nil; naive_solver.
    + destruct (decide (severity = "medium"));
        rewrite elem_of_cons, elem_of_nil; naive_solver.
  - intros i0. destruct (decide (severity = "high")) as [Hh|Hh].
    + destruct (truthy (d_user alert)) as [u|];
        [destruct (decide (reason = "failed_login_threshold"))|];
        destruct (truthy (d_ip alert)) as [i|]; cbn;
        rewrite ?elem_of_cons, ?elem_of_nil; naive_solver.
    + destruct (decide (severity = "medium"));
        rewrite elem_of_cons, elem_of_nil; naive_solver.
  - destruct (decide (severity = "high")) as [Hh|Hh].
    + destruct (truthy (d_user alert)) as [u|];
        [destruct (decide (reason = "failed_login_threshold"))|];
        destruct (truthy (d_ip alert)) as [i|]; cbn;
        (split; [intros Hnil|intros (_ & Hn & Hi)]); try done.
      * destruct Hn. split; [done|]. eauto.
      * split; [done|]. split; [|done]. by intros [? _].
      * split; [done|]. split; [|done]. by intros [_ [? ?]].
    + destruct (decide (severity = "medium")); split; naive_solver.
Qed.

(** X16. [api_respond] accepts the actions block_ip, disable_account and
    alert, each reported with status success, and answers 400 for any other
    action; in no case does it touch the incident log, the id counter or the
    clock. *)
Theorem api_respond_leaves_log action target st :
  (api_respond utcnow action target st).1 = st
  ∧ ((∃ detail, (api_respond utcnow action target st).2
                = inl (HTTP400 detail))
     ↔ action ≠ "block_ip" ∧ action ≠ "disable_account"
       ∧ action ≠ "alert")
  ∧ ∀ out, (api_respond utcnow action target st).2 = inr out →
           out_action out = action ∧ out_status out = SUCCESS
           ∧ out_target out = if decide (action = "alert") then "ops"
                              else target.
Proof.
  unfold api_respond.
  destruct (decide (action = "block_ip")) as [->|H1];
    [|destruct (decide (action = "disable_account")) as [->|H2];
      [|destruct (decide (action = "alert")) as [->|H3]]];
    cbn; (split; [done|]); (split; [|intros out [= <-]; done || by cbn]).
  - split; [by intros [? ?]|]. by intros [? _].
  - split; [by intros [? ?]|]. by intros (_ & ? & _).
  - split; [by intros [? ?]|]. by intros (_ & _ & ?).
  - split; [done|]. eauto.
Qed.

End Response.

(** ** Detection and response together *)

Lemma dd_append_key_elem d u ts k :
  k ∈ (dd_append d u ts).*1 → k ∈ d.*1 ∨ k = u.
Proof.
  rewrite dd_append_keys. destruct (decide _); [by left|].
  rewrite elem_of_app, list_elem_of_singleton. tauto.
Qed.

Lemma rapid_entries_users w entries alerts :
  rapid_entries w entries = Ok alerts →
  Forall (λ a, a_user a ∈ entries.*1) alerts.
Proof.
  revert alerts. induction entries as [|[u times] es IH]; intros alerts.
  - by intros [= <-].
  - cbn [rapid_entries]. unfold rapid_user_step, rapid_user_body. simpl.
    destruct (sort_times times) as [sorted|]; [|done]. simpl.
    destruct (scan_pairs w sorted) as [hit|]; [|done]. simpl.
    destruct (rapid_entries w es) as [outs|]; [|done]. simpl.
    intros [= <-]. specialize (IH outs eq_refl).
    apply Forall_app. split.
    + destruct hit; [|done]. apply Forall_singleton. left.
    + eapply Forall_impl; [exact IH|]. intros a Ha. by right.
Qed.

Section DetectAndRespond.

Variable utcnow : nat → civil.
Variable fromisoformat : string → option datetime.

Lemma collect_login_times_keys logs :
  Forall (λ k, k ≠ "") (collect_login_times fromisoformat logs).*1.
Proof.
  unfold collect_login_times.
  enough (∀ d, Forall (λ k, k ≠ "") d.*1 →
               Forall (λ k, k ≠ "")
                 (fold_left (collect_body fromisoformat) logs d).*1) as H
    by (apply H; constructor).
  induction logs as [|r logs IH]; intros d Hd; [done|]. simpl. apply IH.
  unfold collect_body. destruct (negb _); [done|].
  destruct (truthy (r_user r)) as [u|] eqn:Hu; [|done].
  destruct (truthy (r_timestamp r)); [|done].
  destruct (parse_ts _ _) as [ts|]; [|done].
  apply Forall_forall. intros k [Hk| ->]%dd_append_key_elem.
  - rewrite Forall_forall in Hd. auto.
  - by apply truthy_Some in Hu as [_ ?].
Qed.

Lemma detect_all_alert_users st logs alerts :
  (detect_all fromisoformat st logs).2 = Ok alerts →
  Forall (λ a, wire_ok a ∧ a_user a ≠ "") alerts.
Proof.
  rewrite detect_all_unfold. cbn [snd].
  destruct (rule_rapid_multiple_logins _ _ _) as [a4|] eqn:H4; [|done].
  simpl. intros [= <-]. rewrite sort_by_severity_perm.
  apply Forall_and. split; [by apply concatenation_wire|].
  rewrite !Forall_app. repeat split.
  - rewrite rule_login_from_new_origin_steps.
    eapply Forall_impl;
      [apply (steps_Forall _ (λ _ a, a_user a ≠ ""))|by intros a (_ & _ & ?)].
    intros s r. pose proof (new_origin_step_out s r) as Ho.
    rewrite Ho. destruct (type_is "login" r); [|done].
    destruct (truthy (r_user r)) as [u|] eqn:Hu; [|done].
    destruct (truthy (r_origin r)); [|done]. destruct (decide _); [done|].
    apply Forall_singleton. by apply truthy_Some in Hu as [_ ?].
  - rewrite rule_failed_login_threshold_steps.
    eapply Forall_impl;
      [apply (steps_Forall _ (λ _ a, a_user a ≠ ""))|by intros a (_ & _ & ?)].
    intros s r. rewrite failed_login_step_out.
    destruct (type_is "failed_login" r); [|done].
    destruct (truthy (r_user r)) as [u|] eqn:Hu; [|done].
    destruct (decide _); [|done].
    apply Forall_singleton. by apply truthy_Some in Hu as [_ ?].
  - rewrite rule_login_unusual_time_flat. clear H4.
    induction logs as [|r logs IH]; [done|]. simpl.
    apply Forall_app. split; [|done]. clear IH.
    unfold unusual_time_step, unusual_time_body.
    destruct (negb _); [done|].
    destruct (truthy (r_user r)) as [u|] eqn:Hu; [|done].
    destruct (truthy (r_timestamp r)); [|done].
    destruct (parse_ts _ _); [|done]. destruct (_ || _); [|done].
    apply Forall_singleton. by apply truthy_Some in Hu as [_ ?].
  - unfold rule_rapid_multiple_logins in H4.
    rewrite rapid_fold_entries in H4. simpl in H4.
    destruct (rapid_entries _ _) as [outs|] eqn:E; [|done].
    injection H4 as <-. apply rapid_entries_users in E.
    pose proof (collect_login_times_keys logs) as Hk.
    rewrite Forall_forall in Hk.
    eapply Forall_impl; [exact E|]. intros a Ha. by apply Hk.
Qed.

(** X14. For an alert that [detect_all] returned, the playbook logs an
    incident carrying the alert's user and reason, the alert id "unknown"
    and no ip, and records on it: for severity high, the disabling of the
    user's account and an alert to ops; for medium, one alert to security;
    for low, one alert to logs.  It never blocks an IP for such an alert,
    since the rules put none on their alerts. *)
Theorem detected_alert_response st logs alerts a rst :
  (detect_all fromisoformat st logs).2 = Ok alerts → a ∈ alerts →
  ∃ inc,
    _incidents (auto_respond_to_alert utcnow (alert_view a) rst).1
    = _incidents rst ++ [inc]
    ∧ inc_user inc = Some (a_user a) ∧ inc_ip inc = None
    ∧ inc_alert_id inc = "unknown" ∧ inc_alert_reason inc = a_reason a
    ∧ actions_taken inc
      = (if decide (a_severity a = "high")
         then [("disable_account", a_user a); ("alert", "ops")]
         else if decide (a_severity a = "medium")
              then [("alert", "security")] else [("alert", "logs")])
    ∧ ∀ i, ("block_ip", i) ∉ actions_taken inc.
Proof.
  intros Hout Ha.
  pose proof (detect_all_alert_users st logs alerts Hout) as Hall.
  rewrite Forall_forall in Hall. destruct (Hall a Ha) as [Hw Hu].
  destruct (auto_respond_to_alert_spec utcnow (alert_view a) rst)
    as (inc & -> & _ & Hid & Hre & Hus & Hip & _ & _ & Hact).
  exists inc. cbn in Hid, Hre, Hus, Hip, Hact.
  rewrite (decide_False (P := a_user a = "")), app_nil_r in Hact by done.
  assert (actions_taken inc
          = (if decide (a_severity a = "high")
             then [("disable_account", a_user a); ("alert", "ops")]
             else if decide (a_severity a = "medium")
                  then [("alert", "security")] else [("alert", "logs")]))
    as Hact'.
  { rewrite Hact. destruct (decide (a_severity a = "high")) as [Hh|]; [|done].
    rewrite decide_True; [done|].
    destruct Hw as [[_ Hs]|[[Hr _]|[[_ Hs]|[_ Hs]]]]; try done;
      rewrite Hs in Hh; discriminate. }
  repeat split; try done. intros i. rewrite Hact'.
  destruct (decide _); [|destruct (decide _)];
    rewrite ?elem_of_cons, elem_of_nil; naive_solver.
Qed.

(** X15. [api_detect_and_respond] leaves the detection state that
    [detect_all] leaves on the logs [get_logs] hands over.  When detection
    returns, it reports as many incidents as alerts, appends exactly the
    reported incidents to the incident log, one per alert and in the order
    of the alerts, each with its alert's reason; when detection raises, it
    raises too and the incident log is untouched, though the detection state
    has already moved. *)
Theorem api_detect_and_respond_outcome storage_get_logs _logs det rst :
  let logs := get_logs storage_get_logs _logs 100 in
  let run :=
    api_detect_and_respond utcnow fromisoformat storage_get_logs _logs det
      rst in
  run.1.1 = (detect_all fromisoformat det logs).1
  ∧ match (detect_all fromisoformat det logs).2 with
    | Ok alerts =>
        ∃ new,
          run.2 = Ok (mkDetectAndRespond (length alerts) (length alerts) new)
          ∧ length new = length alerts
          ∧ _incidents run.1.2 = _incidents rst ++ new
          ∧ _incident_counter run.1.2
            = _incident_counter rst + Z.of_nat (length alerts)
          ∧ inc_alert_reason <$> new = a_reason <$> alerts
    | Raise e => run.2 = Raise e ∧ run.1.2 = rst
    end.
Proof.
  intros logs run. subst run. unfold api_detect_and_respond. fold logs.
  destruct (detect_all fromisoformat det logs) as [det' [alerts|e]];
    cbn [fst snd]; [|done].
  destruct (respond_each_spec utcnow (alert_view <$> alerts) rst [])
    as (new & H2 & H1 & Hc & Hlen & Hrs & _ & _).
  destruct (respond_each utcnow (alert_view <$> alerts) rst [])
    as [rst' incs]. cbn [fst snd app] in *. subst incs.
  rewrite length_fmap in Hlen, Hc. split; [done|].
  exists new. rewrite Hlen. repeat split; try done.
  rewrite Hrs, <- list_fmap_compose. done.
Qed.

End DetectAndRespond.

(** ** Rule 3 under a window that does not wrap *)

Section Window.

Variable fromisoformat : string → option datetime.

(** X17. The test of rule 3, hour >= start or hour < end, is meant for a
    window that wraps around midnight.  Under a window with start <= end,
    such as (9, 17), it holds at every hour: the rule then returns one alert
    for every login with a user and a timestamp that parses, in batch order,
    whatever the hour. *)
Theorem unusual_time_window_without_wraparound outside_hours logs :
  outside_hours.1 ≤ outside_hours.2 →
  rule_login_unusual_time fromisoformat outside_hours logs
  = omap (λ r, p ← timed_login fromisoformat r;
               Some (unusual_time_alert p.1 (dt_hour p.2) r)) logs.
Proof.
  intros Hw. rewrite rule_login_unusual_time_flat.
  induction logs as [|r logs IH]; [done|].
  cbn [flat_map]. rewrite IH. clear IH.
  change (omap ?f (r :: logs))
    with (match f r with Some y => y :: omap f logs | None => omap f logs end).
  unfold unusual_time_step, unusual_time_body, timed_login.
  destruct (type_is "login" r); [|done]. cbn [negb].
  destruct (truthy (r_user r)) as [u|]; [|done].
  destruct (truthy (r_timestamp r)) as [ts|]; [|done]. cbn.
  destruct (parse_ts fromisoformat ts) as [dt|]; [|done]. cbn.
  destruct (dt_hour dt >=? outside_hours.1) eqn:E1; [done|].
  destruct (dt_hour dt <? outside_hours.2) eqn:E2; [done|]. lia.
Qed.

End Window.

(** ** The further properties at concrete inputs *)

(** Under the window (9, 17) a login at noon and a login at three at night
    both fire. *)
Lemma unusual_time_window_without_wraparound_witness :
  (9, 17).1 ≤ (9, 17).2
  ∧ rule_login_unusual_time fromisoformat_basic (9, 17)
      [login_at "alice" "2024-01-01T12:00:00Z";
       login_at "bob" "2024-01-02T03:30:00"]
    = [unusual_time_alert "alice" 12 (login_at "alice" "2024-01-01T12:00:00Z");
       unusual_time_alert "bob" 3 (login_at "bob" "2024-01-02T03:30:00")].
Proof.
  assert ((9, 17).1 ≤ (9, 17).2) as Hw by (cbn; lia).
  split; [exact Hw|].
  rewrite (unusual_time_window_without_wraparound fromisoformat_basic (9, 17)
             _ Hw).
  reflexivity.
Defined.

(** alice from US and bob from UK, then alice from US again in a second
    call. *)
Lemma new_origin_silent_on_replay_witness :
  [login_of "alice" "US" "2024-01-01T10:00:00Z"]
  ⊆ [login_of "alice" "US" "2024-01-01T10:00:00Z";
     login_of "bob" "UK" "2024-01-01T11:00:00Z"]
  ∧ (rule_login_from_new_origin
       (detect_all fromisoformat_basic fresh
          [login_of "alice" "US" "2024-01-01T10:00:00Z";
           login_of "bob" "UK" "2024-01-01T11:00:00Z"]).1
       [login_of "alice" "US" "2024-01-01T10:00:00Z"]).2 = [].
Proof.
  assert ([login_of "alice" "US" "2024-01-01T10:00:00Z"]
          ⊆ [login_of "alice" "US" "2024-01-01T10:00:00Z";
             login_of "bob" "UK" "2024-01-01T11:00:00Z"]) as Hsub.
  { intros r Hr. apply list_elem_of_singleton in Hr as ->. left. }
  split; [exact Hsub|].
  exact (proj1 (new_origin_silent_on_replay fromisoformat_basic fresh _ _
                  Hsub)).
Defined.

(** Two logins of alice from US in one batch, from a fresh state. *)
Lemma new_origin_alert_iff_newly_seen_witness :
  "alice" ≠ "" ∧ "US" ≠ ""
  ∧ (length
       (filter (λ a, is_new_origin_for "alice" "US" a)
          (rule_login_from_new_origin fresh
             [login_of "alice" "US" "2024-01-01T10:00:00Z";
              login_of "alice" "US" "2024-01-01T11:00:00Z"]).2) ≤ 1)%nat.
Proof.
  split; [done|]. split; [done|].
  exact (proj2 (new_origin_alert_iff_newly_seen fresh
                  [login_of "alice" "US" "2024-01-01T10:00:00Z";
                   login_of "alice" "US" "2024-01-01T11:00:00Z"]
                  "alice" "US" ltac:(done) ltac:(done))).
Defined.

(** Six failed logins of bob under a threshold of 5, from a fresh state. *)
Lemma failed_login_alerts_from_any_state_witness :
  "bob" ≠ ""
  ∧ length
      (filter (λ a, is_failed_alert_of "bob" a)
         (rule_failed_login_threshold 5 fresh
            (replicate 6 (failed_login_of "bob" "10.0.0.1"))).2)
    = (length
         (filter (λ r, is_failed_login_of "bob" r)
            (replicate 6 (failed_login_of "bob" "10.0.0.1")))
       - Z.to_nat (5 - 1 - failed fresh "bob"))%nat.
Proof.
  split; [done|].
  exact (proj1 (failed_login_alerts_from_any_state 5 fresh
                  (replicate 6 (failed_login_of "bob" "10.0.0.1")) "bob"
                  ltac:(done))).
Defined.

(** Two logins of alice ten seconds apart, in either order. *)
Lemma rapid_logins_order_independent_witness :
  [login_at "alice" "2024-01-01T10:00:00Z";
   login_at "alice" "2024-01-01T10:00:10Z"]
  ≡ₚ [login_at "alice" "2024-01-01T10:00:10Z";
      login_at "alice" "2024-01-01T10:00:00Z"]
  ∧ (is_Ok (rule_rapid_multiple_logins fromisoformat_basic
              default_window_seconds
              [login_at "alice" "2024-01-01T10:00:00Z";
               login_at "alice" "2024-01-01T10:00:10Z"])
     ↔ is_Ok (rule_rapid_multiple_logins fromisoformat_basic
                default_window_seconds
                [login_at "alice" "2024-01-01T10:00:10Z";
                 login_at "alice" "2024-01-01T10:00:00Z"])).
Proof.
  split; [apply perm_swap|].
  exact (proj1 (rapid_logins_order_independent fromisoformat_basic
                  default_window_seconds _ _ (perm_swap _ _ []))).
Defined.

(** Under the default window, one login of alice and one of bob: the rule
    returns no alert, so no user has two timestamps that are close. *)
Lemma rapid_logins_silent_iff_witness :
  60 < 2 ^ 33
  ∧ ∀ u,
      comparable
        (login_times fromisoformat_basic u
           [login_at "alice" "2024-01-01T10:00:00Z";
            login_at "bob" "2024-01-01T10:00:10"])
      ∧ close_pair 60
          (login_times fromisoformat_basic u
             [login_at "alice" "2024-01-01T10:00:00Z";
              login_at "bob" "2024-01-01T10:00:10"]) = false.
Proof.
  assert (60 < 2 ^ 33) as Hw by done.
  split; [exact Hw|].
  apply (proj1 (proj1 (rapid_logins_silent_iff fromisoformat_basic 60
                         [login_at "alice" "2024-01-01T10:00:00Z";
                          login_at "bob" "2024-01-01T10:00:10"] Hw))).
  reflexivity.
Defined.

(** The last microsecond of a leap day. *)
Lemma utc_stamp_round_trip_witness :
  valid_civil (mkCivil 2024 2 29 23 59 59 999999)
  ∧ parse_ts fromisoformat_basic (utc_stamp (mkCivil 2024 2 29 23 59 59 999999))
    = Some (mkDT 23 63844847999999999 (Some 0)).
Proof.
  assert (valid_civil (mkCivil 2024 2 29 23 59 59 999999)) as Hv
    by (repeat split; by vm_compute).
  split; [exact Hv|].
  rewrite (utc_stamp_round_trip (mkCivil 2024 2 29 23 59 59 999999) Hv).
  reflexivity.
Defined.

(** Two logins of alice ingested without a timestamp, with no storage
    layer. *)
Lemma detect_all_returns_on_ingested_witness :
  Forall (λ req, valid_civil req.1 ∧ r_timestamp req.2 = None)
    [(mkCivil 2024 1 1 10 0 0 0,
      mkLog (Some "login") (Some "alice") (Some "US") None None);
     (mkCivil 2024 1 1 10 0 10 500,
      mkLog (Some "login") (Some "alice") (Some "UK") None None)]
  ∧ is_Ok (detect_all fromisoformat_basic fresh
             (get_logs None
                (ingest_each None
                   [(mkCivil 2024 1 1 10 0 0 0,
                     mkLog (Some "login") (Some "alice") (Some "US") None
                       None);
                    (mkCivil 2024 1 1 10 0 10 500,
                     mkLog (Some "login") (Some "alice") (Some "UK") None
                       None)] []) 100)).2.
Proof.
  assert (Forall (λ req, valid_civil req.1 ∧ r_timestamp req.2 = None)
            [(mkCivil 2024 1 1 10 0 0 0,
              mkLog (Some "login") (Some "alice") (Some "US") None None);
             (mkCivil 2024 1 1 10 0 10 500,
              mkLog (Some "login") (Some "alice") (Some "UK") None None)])
    as Hreq.
  { repeat constructor; by vm_compute. }
  split; [exact Hreq|].
  exact (proj2 (detect_all_returns_on_ingested None _ 100 fresh Hreq)).
Defined.

(** Two alerts answered from an empty incident log. *)
Lemma respond_each_numbers_incidents_witness :
  well_numbered no_incidents
  ∧ well_numbered
      (respond_each (λ n, mkCivil 2024 1 1 10 0 (Z.of_nat n) 0)
         [mkAlertDict None (Some "failed_login_threshold") (Some "high")
            (Some "bob") None;
          mkAlertDict None (Some "new_origin") (Some "medium")
            (Some "alice") None] no_incidents []).1.
Proof.
  assert (well_numbered no_incidents) as Hw by (split; [done|reflexivity]).
  split; [exact Hw|].
  exact (proj1 (respond_each_numbers_incidents _ _ no_incidents Hw)).
Defined.

(** The log after two alerts: the ids 1 and 2 are found, 3 is not. *)
Lemma get_incident_by_id_witness :
  well_numbered
    (respond_each (λ n, mkCivil 2024 1 1 10 0 (Z.of_nat n) 0)
       [mkAlertDict None (Some "failed_login_threshold") (Some "high")
          (Some "bob") None;
        mkAlertDict None (Some "new_origin") (Some "medium")
          (Some "alice") None] no_incidents []).1
  ∧ ∀ id, ¬ (1 ≤ id ≤ 2) →
          get_incident id
            (respond_each (λ n, mkCivil 2024 1 1 10 0 (Z.of_nat n) 0)
               [mkAlertDict None (Some "failed_login_threshold") (Some "high")
                  (Some "bob") None;
                mkAlertDict None (Some "new_origin") (Some "medium")
                  (Some "alice") None] no_incidents []).1
          = None.
Proof.
  assert (well_numbered
            (respond_each (λ n, mkCivil 2024 1 1 10 0 (Z.of_nat n) 0)
               [mkAlertDict None (Some "failed_login_threshold") (Some "high")
                  (Some "bob") None;
                mkAlertDict None (Some "new_origin") (Some "medium")
                  (Some "alice") None] no_incidents []).1) as Hw
    by (split; [done|reflexivity]).
  split; [exact Hw|]. intros id Hid.
  exact (proj1 (proj2 (proj2 (get_incident_by_id _ Hw)) id Hid)).
Defined.

(** Five failed logins of bob: the alert is answered by disabling bob's
    account and alerting ops. *)
Lemma detected_alert_response_witness :
  (detect_all fromisoformat_basic fresh
     (replicate 5 (failed_login_of "bob" "10.0.0.1"))).2
  = Ok [failed_login_alert "bob" 5 (failed_login_of "bob" "10.0.0.1")]
  ∧ failed_login_alert "bob" 5 (failed_login_of "bob" "10.0.0.1")
    ∈ [failed_login_alert "bob" 5 (failed_login_of "bob" "10.0.0.1")]
  ∧ ∃ inc,
      _incidents
        (auto_respond_to_alert (λ n, mkCivil 2024 1 1 10 0 (Z.of_nat n) 0)
           (alert_view
              (failed_login_alert "bob" 5 (failed_login_of "bob" "10.0.0.1")))
           no_incidents).1
      = [inc]
      ∧ actions_taken inc = [("disable_account", "bob"); ("alert", "ops")].
Proof.
  assert ((detect_all fromisoformat_basic fresh
             (replicate 5 (failed_login_of "bob" "10.0.0.1"))).2
          = Ok [failed_login_alert "bob" 5 (failed_login_of "bob" "10.0.0.1")])
    as Hout by reflexivity.
  assert (failed_login_alert "bob" 5 (failed_login_of "bob" "10.0.0.1")
          ∈ [failed_login_alert "bob" 5 (failed_login_of "bob" "10.0.0.1")])
    as Hin by left.
  split; [exact Hout|]. split; [exact Hin|].
  destruct (detected_alert_response
              (λ n, mkCivil 2024 1 1 10 0 (Z.of_nat n) 0) fromisoformat_basic
              fresh _ _ _ no_incidents Hout Hin)
    as (inc & Hlog & _ & _ & _ & _ & Hact & _).
  exists inc. split; [exact Hlog|exact Hact].
Defined.
